(** * The redirect engine of the server entry point (index.js)

    A shallow embedding of the three pieces of [index.js] that decide how a
    request is redirected:

    - the trailing-slash middleware (the anonymous [app.use] handler),
    - the rule compiler, the body of [getRedirectsMiddleware] that reads the
      [_redirects] text,
    - the matcher, the closure [redirectsMiddleware] it returns.

    JavaScript strings are embedded as [string]; the development only looks
    at characters of the ASCII range.  The libraries the file calls
    (path-to-regexp and the WHATWG [URL] class of Node) are not part of the
    file: they are an interface, [Platform], and the functions of [index.js]
    are written over it.  [Module Node] gives one implementation of the
    interface, on which the examples are evaluated. *)

From Stdlib Require Import List String Ascii Bool Arith NArith ZArith Lia DecimalString.
From Stdlib Require Import Permutation.
Import ListNotations.
Local Open Scope string_scope.
Local Open Scope list_scope.

Set Implicit Arguments.

(** ** JavaScript string and array primitives used by index.js *)

Module JS.

(** The ASCII members of the WhiteSpace and LineTerminator classes, which is
    what [String.prototype.trim] strips: TAB, LF, VT, FF, CR and SPACE. *)
Definition is_white_space (c : ascii) : bool :=
  let n := nat_of_ascii c in
  (Nat.leb 9 n && Nat.leb n 13) || Nat.eqb n 32.

Fixpoint trimStart (s : string) : string :=
  match s with
  | String c r => if is_white_space c then trimStart r else s
  | EmptyString => EmptyString
  end.

Fixpoint trimEnd (s : string) : string :=
  match s with
  | String c r =>
      let r' := trimEnd r in
      if is_white_space c && (r' =? "") then "" else String c r'
  | EmptyString => EmptyString
  end.

(** [s.trim()] *)
Definition trim (s : string) : string := trimEnd (trimStart s).

(** [s.startsWith(p)] *)
Definition startsWith (p s : string) : bool := String.prefix p s.

(** [s.endsWith(p)] *)
Fixpoint endsWith (p s : string) : bool :=
  (s =? p) ||
  match s with
  | String _ r => endsWith p r
  | EmptyString => false
  end.

(** [s.includes(p)] on strings *)
Fixpoint includes (p s : string) : bool :=
  String.prefix p s ||
  match s with
  | String _ r => includes p r
  | EmptyString => false
  end.

(** [s.split(sep)] for a separator of one character.  The result is never
    empty: the empty string splits into one empty string. *)
Fixpoint split (sep : ascii) (s : string) : list string :=
  match s with
  | EmptyString => [""]
  | String c r =>
      if Ascii.eqb c sep then "" :: split sep r
      else match split sep r with
           | h :: t => String c h :: t
           | [] => [String c ""]
           end
  end.

(** [s.slice(n)] for [0 <= n] *)
Fixpoint slice_from (n : nat) (s : string) : string :=
  match n, s with
  | S n', String _ r => slice_from n' r
  | _, _ => s
  end.

(** [s.slice(0, -1)] *)
Fixpoint slice_0_m1 (s : string) : string :=
  match s with
  | String c (String _ _ as r) => String c (slice_0_m1 r)
  | _ => EmptyString
  end.

(** [s.replace(/\/+/g, '/')]: every maximal run of slashes becomes one. *)
Fixpoint replace_slashes (s : string) : string :=
  match s with
  | EmptyString => EmptyString
  | String c r =>
      if Ascii.eqb c "/" then
        match r with
        | String c' _ => if Ascii.eqb c' "/" then replace_slashes r
                         else String "/" (replace_slashes r)
        | EmptyString => "/"
        end
      else String c (replace_slashes r)
  end.

(** [arr.includes(x)] on an array of strings (strict equality) *)
Definition array_includes (x : string) (arr : list string) : bool :=
  existsb (String.eqb x) arr.

(** Truthiness of a value that is a string or [undefined]. *)
Definition truthy (v : option string) : bool :=
  match v with
  | Some s => negb (s =? "")
  | None => false
  end.

(** [a ?? b] *)
Definition nullish {A} (a b : option A) : option A :=
  match a with
  | Some _ => a
  | None => b
  end.

(** The decimal numeral a number has inside a template literal. *)
Definition number_toString (n : nat) : string :=
  NilEmpty.string_of_uint (Nat.to_uint n).

(** The double-quote character. *)
Definition dquote : string := String (ascii_of_nat 34) EmptyString.

Definition LF : ascii := ascii_of_nat 10.

End JS.

(** ** Requests and what a middleware does with one *)

(** What index.js reads of an Express request.  [path] is what Express
    derives from [url] (the part before the query string); [headers] is
    keyed by lower-case header name, as Node delivers it. *)
Record Request := mkRequest {
  method : string;
  url : string;
  path : string;
  headers : list (string * string)
}.

Definition lower_ascii (c : ascii) : ascii :=
  let n := nat_of_ascii c in
  if Nat.leb 65 n && Nat.leb n 90 then ascii_of_nat (n + 32) else c.

Fixpoint toLowerCase (s : string) : string :=
  match s with
  | String c r => String (lower_ascii c) (toLowerCase r)
  | EmptyString => EmptyString
  end.

Fixpoint lookup {A} (k : string) (l : list (string * A)) : option A :=
  match l with
  | (k', v) :: r => if k' =? k then Some v else lookup k r
  | [] => None
  end.

(** [req.header(name)]: the lookup is by the lower-cased name. *)
Definition header (req : Request) (name : string) : option string :=
  lookup (toLowerCase name) (headers req).

(** How a middleware invocation ends: [res.redirect(status, url)], [next()],
    or an exception that leaves the handler. *)
Inductive Response :=
| Redirect (status : nat) (location : string)
| Next
| Uncaught.

(** How a call that may throw ends. *)
Inductive Completion (A : Type) :=
| Returned (a : A)
| Threw.
Arguments Threw {A}.

(** ** The trailing-slash middleware (index.js, lines 29-37) *)

Definition trailingSlashMiddleware (req : Request) : Response :=
  if JS.endsWith "/" (path req) && Nat.ltb 1 (String.length (path req)) then
    let query := JS.slice_from (String.length (path req)) (url req) in
    let safepath := JS.replace_slashes (JS.slice_0_m1 (path req)) in
    Redirect 301 (safepath ++ query)
  else Next.

(** What [safepath] is, in words of its own: the string without the
    slashes that directly follow a slash.  [after_slash] tells whether the
    character before [s] is a slash. *)
Fixpoint without_repeated_slashes (after_slash : bool) (s : string) : string :=
  match s with
  | EmptyString => EmptyString
  | String c r =>
      if Ascii.eqb c "/" then
        if after_slash then without_repeated_slashes true r
        else String c (without_repeated_slashes true r)
      else String c (without_repeated_slashes false r)
  end.

(** ** The libraries index.js calls

    [pathToRegexp] and [compile] of path-to-regexp and the [URL] class are
    used through this interface, over the types of regular expressions, of
    compiled path functions and of URL objects.  [None] stands for a call
    that throws.

    - [pathToRegexp from] stands for [pathToRegexp(from, keys)] with a fresh
      array [keys]: it gives the regular expression and the keys pushed.
    - [String_match s re] is [s.match(re)]: [None] for [null], otherwise the
      match array (the whole match, then one entry per capture group, an
      entry being [None] for a group that did not take part).
    - [compileRedirectPath p] is [compile(p, {encode: encodeURIComponent})]
      and [PathFunction_call] applies the function it returns.
    - the [URL_] functions are the constructor, the getters, the setters,
      [searchParams.entries()], [searchParams.append] and [toString] of a
      URL object.  A setter gives the object after the assignment. *)

Record Key := mkKey { name : string }.

(** The object [params]: its own properties, names with their values, a
    value being a string or [undefined]. *)
Definition Params := list (string * option string).

(** An own property is created, or gets its new value. *)
Fixpoint own_property_set (k : string) (v : option string) (params : Params)
  : Params :=
  match params with
  | (k', v') :: r =>
      if k' =? k then (k, v) :: r else (k', v') :: own_property_set k v r
  | [] => [(k, v)]
  end.

(** [params[k] = v] on the object [params], which starts as [{}].  The
    name [__proto__] is the accessor inherited from [Object.prototype]: its
    setter does nothing for a value that is a string or [undefined], so no
    property is created.  Every other name becomes an own property. *)
Definition params_set (k : string) (v : option string) (params : Params) : Params :=
  if k =? "__proto__" then params else own_property_set k v params.

Class Platform (RegExp PathFunction URL : Type) : Type := {
  pathToRegexp : string -> option (RegExp * list Key);
  String_match : string -> RegExp -> option (list (option string));
  compileRedirectPath : string -> option PathFunction;
  PathFunction_call : PathFunction -> Params -> option string;
  new_URL : string -> option URL;
  URL_protocol : URL -> string;
  URL_host : URL -> string;
  URL_pathname : URL -> string;
  URL_searchParams : URL -> list (string * string);
  URL_set_protocol : string -> URL -> URL;
  URL_set_host : string -> URL -> URL;
  URL_set_pathname : string -> URL -> URL;
  URL_searchParams_append : string -> string -> URL -> URL;
  URL_toString : URL -> string
}.

(** What the URL standard says of the setters and of [append] as far as the
    list of query parameters goes: the three setters leave it alone, and
    [append] adds one pair at its end. *)
Class PlatformLaws {RegExp PathFunction URL : Type}
      (P : Platform RegExp PathFunction URL) : Prop := {
  searchParams_set_protocol : forall p u,
    URL_searchParams (URL_set_protocol p u) = URL_searchParams u;
  searchParams_set_host : forall h u,
    URL_searchParams (URL_set_host h u) = URL_searchParams u;
  searchParams_set_pathname : forall p u,
    URL_searchParams (URL_set_pathname p u) = URL_searchParams u;
  searchParams_append : forall k v u,
    URL_searchParams (URL_searchParams_append k v u)
    = URL_searchParams u ++ [(k, v)]
}.

Section Redirects.

Context {RegExp PathFunction URL : Type} {P : Platform RegExp PathFunction URL}.

(** An element of the array [redirects]. *)
Record RedirectRule := mkRule {
  methods : list string;
  from : RegExp;
  keys : list Key;
  toPathname : PathFunction;
  toUrl : URL
}.

(** The rule object after an assignment to a property of its [toUrl]:
    the local [toUrl] of the matcher is the very object the rule holds. *)
Definition with_toUrl (redirect : RedirectRule) (u : URL) : RedirectRule :=
  mkRule (methods redirect) (from redirect) (keys redirect)
         (toPathname redirect) u.

(** What [console.error] receives. *)
Inductive Diagnostic :=
| console_error (message : string)
| console_error_redirect (message : string) (redirect : RedirectRule)
                         (req_url : string).

(** *** The rule compiler (index.js, lines 85-134) *)

Definition possibleMethods : list string :=
  ["HEAD"; "GET"; "POST"; "PUT"; "DELETE"; "PATCH"; "*"].

(** [line.split(' ').map(l => l.trim()).filter(Boolean)] *)
Definition line_tokens (line : string) : list string :=
  filter (fun l => negb (l =? "")) (map JS.trim (JS.split " " line)).

(** Lines 100-109: the method token is recognised, or defaulted. *)
Definition resolve (one : string) (two three : option string)
  : list string * option string * option string :=
  let splitOne := JS.split "," one in
  if existsb (fun m => JS.array_includes m splitOne) possibleMethods
  then (splitOne, two, three)
  else (["*"], Some one, two).

Definition invalid_redirect (lineNumber : nat) (line : string) : Diagnostic :=
  console_error ("Invalid redirect on line " ++ JS.number_toString (lineNumber + 1)
                 ++ ": " ++ JS.dquote ++ line ++ JS.dquote).

Definition failed_to_parse (lineNumber : nat) (line : string) : Diagnostic :=
  console_error ("Failed to parse redirect on line " ++ JS.number_toString lineNumber
                 ++ ": " ++ JS.dquote ++ line ++ JS.dquote).

(** Lines 117-119: the URL object of the destination. *)
Definition new_toUrl (to : string) : option URL :=
  if JS.includes "//" to then new_URL to
  else new_URL ("https://same_host" ++ to).

(** What one iteration of the loop over the lines does. *)
Inductive LineResult :=
| Ignored
| Logged (d : Diagnostic)
| Pushed (redirect : RedirectRule)
| Thrown.

(** The body of the loop, for the line of index [lineNumber] (from 0).
    [new URL] is called before the [try] block: its exception leaves the
    function.  The last branch is not reached, since [from] and [to] are
    truthy there; [Thrown] on an empty token list is [one.split] on
    [undefined]. *)
Definition compile_line (lineNumber : nat) (raw : string) : LineResult :=
  let line := JS.trim raw in
  if (line =? "") || JS.startsWith "#" line then Ignored
  else
    match line_tokens line with
    | [] => Thrown
    | one :: rest =>
        let two := nth_error rest 0 in
        let three := nth_error rest 1 in
        let '(methods, from, to) := resolve one two three in
        if negb (JS.truthy from) || negb (JS.truthy to)
        then Logged (invalid_redirect lineNumber line)
        else
          match from, to with
          | Some from, Some to =>
              match new_toUrl to with
              | None => Thrown
              | Some toUrl =>
                  match pathToRegexp from with
                  | None => Logged (failed_to_parse lineNumber line)
                  | Some (re, keys) =>
                      match compileRedirectPath (URL_pathname toUrl) with
                      | None => Logged (failed_to_parse lineNumber line)
                      | Some toPathname =>
                          Pushed (mkRule methods re keys toPathname toUrl)
                      end
                  end
              end
          | _, _ => Logged (invalid_redirect lineNumber line)
          end
    end.

(** The loop over the lines, from index [lineNumber] on.  [redirects] and
    [console] are what has been pushed and logged so far. *)
Fixpoint compile_lines (lineNumber : nat) (lines : list string)
         (redirects : list RedirectRule) (console : list Diagnostic)
  : list Diagnostic * Completion (list RedirectRule) :=
  match lines with
  | [] => (console, Returned redirects)
  | raw :: lines' =>
      match compile_line lineNumber raw with
      | Ignored => compile_lines (S lineNumber) lines' redirects console
      | Logged d => compile_lines (S lineNumber) lines' redirects (console ++ [d])
      | Pushed r => compile_lines (S lineNumber) lines' (redirects ++ [r]) console
      | Thrown => (console, Threw)
      end
  end.

(** [getRedirectsMiddleware()], given the text read from [./_redirects]:
    what it logs, and the array [redirects] its closure holds, unless an
    exception leaves it. *)
Definition getRedirectsMiddleware (redirectsString : string)
  : list Diagnostic * Completion (list RedirectRule) :=
  compile_lines 0 (JS.split JS.LF redirectsString) [] [].

(** *** The matcher (index.js, lines 136-189) *)

(** Lines 158-167: the loop over [paramValues].  Index [paramIndex] of
    [paramValues] goes with index [paramIndex] of [redirect.keys];
    reading [.name] of a key that is not there throws. *)
Fixpoint bind_params (keys : list Key) (paramValues : list (option string))
         (params : Params) : option Params :=
  match paramValues with
  | [] => Some params
  | paramValue :: values' =>
      match keys with
      | [] => None
      | k :: keys' => bind_params keys' values' (params_set (name k) paramValue params)
      end
  end.

(** Lines 173-175: every entry of the request's query is appended. *)
Definition append_all (entries : list (string * string)) (toUrl : URL) : URL :=
  fold_left (fun u kv => URL_searchParams_append (fst kv) (snd kv) u) entries toUrl.

(** Lines 149-156: does the rule apply to the request? *)
Definition method_matches (redirect : RedirectRule) (req : Request) : bool :=
  JS.array_includes "*" (methods redirect)
  || JS.array_includes (method req) (methods redirect).

(** What the [try] block does with one rule: [continue] with the rule
    untouched, an exception caught with the rule as the block left it, or
    a redirect sent to the URL the rule's [toUrl] has become. *)
Inductive Attempt :=
| Continue
| Caught (redirect' : RedirectRule)
| Sent (redirect' : RedirectRule).

Definition try_redirect (protocol : string) (reqUrl : URL) (req : Request)
           (redirect : RedirectRule) : Attempt :=
  if negb (method_matches redirect req) then Continue
  else
    match String_match (path req) (from redirect) with
    | None => Continue
    | Some match_ =>
        let paramValues := tl match_ in
        match bind_params (keys redirect) paramValues [] with
        | None => Caught redirect
        | Some params =>
            let toUrl := toUrl redirect in
            let toUrl := URL_set_protocol protocol toUrl in
            let toUrl := if URL_host toUrl =? "same_host"
                         then URL_set_host (URL_host reqUrl) toUrl
                         else toUrl in
            let toUrl := append_all (URL_searchParams reqUrl) toUrl in
            match PathFunction_call (toPathname redirect) params with
            | None => Caught (with_toUrl redirect toUrl)
            | Some pathname =>
                Sent (with_toUrl redirect (URL_set_pathname pathname toUrl))
            end
        end
    end.

(** What a call of the matcher leaves behind: the response, what was
    logged, and the array [redirects] as the next request will find it. *)
Record Handled := mkHandled {
  response : Response;
  console : list Diagnostic;
  redirects_after : list RedirectRule
}.

(** Lines 147-188: the loop over [redirects]. *)
Fixpoint redirects_loop (protocol : string) (reqUrl : URL) (req : Request)
         (redirects : list RedirectRule) : Handled :=
  match redirects with
  | [] => mkHandled Next [] []
  | redirect :: rest =>
      match try_redirect protocol reqUrl req redirect with
      | Continue =>
          let h := redirects_loop protocol reqUrl req rest in
          mkHandled (response h) (console h) (redirect :: redirects_after h)
      | Caught redirect' =>
          let h := redirects_loop protocol reqUrl req rest in
          mkHandled (response h)
                    (console_error_redirect "Error processing redirects:"
                                            redirect' (url req) :: console h)
                    (redirect' :: redirects_after h)
      | Sent redirect' =>
          mkHandled (Redirect 307 (URL_toString (toUrl redirect'))) []
                    (redirect' :: rest)
      end
  end.

(** Line 137.  [None] is [undefined]: neither header is there. *)
Definition resolve_host (req : Request) : option string :=
  JS.nullish (header req "X-Forwarded-Host") (header req "host").

(** Line 138, for a host that is a string. *)
Definition resolve_protocol (host : string) : string :=
  if JS.includes "localhost" host then "http" else "https".

(** The handler.  With [host] undefined, [host.includes] throws outside
    of any [try]. *)
Definition redirectsMiddleware (redirects : list RedirectRule) (req : Request)
  : Handled :=
  match resolve_host req with
  | None => mkHandled Uncaught [] redirects
  | Some host =>
      let protocol := resolve_protocol host in
      match new_URL (protocol ++ "://" ++ host ++ url req) with
      | None =>
          mkHandled Next
                    [console_error ("Invalid URL: " ++ protocol ++ "://" ++ host ++ url req)]
                    redirects
      | Some reqUrl => redirects_loop protocol reqUrl req redirects
      end
  end.

(** The URL a rule's [toUrl] becomes when the [try] block reaches
    [res.redirect] with the expanded path [pathname]. *)
Definition destination (protocol : string) (reqUrl : URL) (pathname : string)
           (redirect : RedirectRule) : URL :=
  let u := URL_set_protocol protocol (toUrl redirect) in
  let u := if URL_host u =? "same_host"
           then URL_set_host (URL_host reqUrl) u else u in
  URL_set_pathname pathname (append_all (URL_searchParams reqUrl) u).

(** *** Running the server: a sequence of requests against one rule set *)

(** The closure keeps the array [redirects] from one request to the next. *)
Fixpoint serve (redirects : list RedirectRule) (reqs : list Request)
  : list Response * list RedirectRule :=
  match reqs with
  | [] => ([], redirects)
  | req :: reqs' =>
      let h := redirectsMiddleware redirects req in
      let '(responses, final) := serve (redirects_after h) reqs' in
      (response h :: responses, final)
  end.

End Redirects.

Arguments RedirectRule : clear implicits.
Arguments Diagnostic : clear implicits.
Arguments LineResult : clear implicits.
Arguments Attempt : clear implicits.
Arguments Handled : clear implicits.

(** ** One implementation of the interface

    path-to-regexp 6 and the URL class, on the inputs the examples use:

    - patterns made of literal characters and named parameters [:name]
      (no groups, custom patterns, modifiers or escapes);
    - URLs [scheme://host[:port][/path][?query][#fragment]] with scheme
      [http] or [https], a host name of letters, digits, [_], [-] and [.]
      whose last label starts with a letter or [_], and a path, query and
      fragment that the URL parser leaves as they are written.

    An input that is not of these forms is answered as a call that throws,
    which is what [new URL] does for a string without a scheme and what
    [pathToRegexp] does for a parameter without a name; a setter given such
    a value leaves the object as it is.  The examples stay on these forms
    and on those two failures. *)

Module Node.

Definition in_range (lo hi : nat) (c : ascii) : bool :=
  Nat.leb lo (nat_of_ascii c) && Nat.leb (nat_of_ascii c) hi.

Definition is_digit := in_range 48 57.
Definition is_alpha (c : ascii) := in_range 65 90 c || in_range 97 122 c.
Definition one_of (set : string) (c : ascii) : bool :=
  JS.includes (String c "") set.
Definition backslash : ascii := ascii_of_nat 92.

Fixpoint all_chars (p : ascii -> bool) (s : string) : bool :=
  match s with
  | String c r => p c && all_chars p r
  | EmptyString => true
  end.

(** The part of [s] before the first character that satisfies [p], and
    the rest from that character on. *)
Fixpoint break_at (p : ascii -> bool) (s : string) : string * string :=
  match s with
  | String c r =>
      if p c then ("", s)
      else let '(a, b) := break_at p r in (String c a, b)
  | EmptyString => ("", "")
  end.

Definition hex_digit (n : nat) : ascii :=
  if Nat.ltb n 10 then ascii_of_nat (48 + n) else ascii_of_nat (55 + n).

Definition percent (c : ascii) : string :=
  let n := nat_of_ascii c in
  String "%" (String (hex_digit (n / 16)) (String (hex_digit (n mod 16)) "")).

Fixpoint encode_with (keep : ascii -> bool) (s : string) : string :=
  match s with
  | String c r =>
      ((if keep c then String c "" else percent c) ++ encode_with keep r)%string
  | EmptyString => EmptyString
  end.

Definition encodeURIComponent : string -> string :=
  encode_with (fun c => is_alpha c || is_digit c || one_of "-_.!~*'()" c).

(** *** path-to-regexp *)

Inductive Token :=
| Text (s : string)
| Param (prefix : string) (name : string).

Definition is_name_char (c : ascii) : bool :=
  is_digit c || is_alpha c || Ascii.eqb c "_".

Definition is_syntax_char (c : ascii) : bool :=
  one_of "*+?{}()" c || Ascii.eqb c backslash.

Definition flush (path : string) (out : list Token) : list Token :=
  if path =? "" then out else out ++ [Text path].

(** The last character of the pending text is the prefix of a parameter
    when it is [.] or [/]. *)
Fixpoint split_prefix (path : string) : string * string :=
  match path with
  | String c EmptyString =>
      if one_of "./" c then ("", path) else (path, "")
  | String c r => let '(a, b) := split_prefix r in (String c a, b)
  | EmptyString => ("", "")
  end.

(** [parse(str)]: [out] is the tokens so far, [path] the pending literal
    text, [name] the prefix and the characters read of the parameter name
    being read, if one is. *)
Fixpoint parse_from (s : string) (out : list Token) (path : string)
         (name : option (string * string)) : option (list Token) :=
  match s with
  | EmptyString =>
      match name with
      | Some (prefix, nm) =>
          if nm =? "" then None else Some (out ++ [Param prefix nm])
      | None => Some (flush path out)
      end
  | String c r =>
      let char := fun out path =>
        if Ascii.eqb c ":" then
          let '(path', prefix) := split_prefix path in
          parse_from r (flush path' out) "" (Some (prefix, ""))
        else if is_syntax_char c then None
        else parse_from r out (path ++ String c "") None in
      match name with
      | Some (prefix, nm) =>
          if is_name_char c then parse_from r out path (Some (prefix, (nm ++ String c "")%string))
          else if nm =? "" then None
          else char (out ++ [Param prefix nm]) ""
      | None => char out path
      end
  end.

Definition parse (str : string) : option (list Token) :=
  parse_from str [] "" None.

Fixpoint token_keys (tokens : list Token) : list Key :=
  match tokens with
  | Param _ nm :: r => mkKey nm :: token_keys r
  | Text _ :: r => token_keys r
  | [] => []
  end.

Definition pathToRegexp (path : string) : option (list Token * list Key) :=
  match parse path with
  | Some tokens => Some (tokens, token_keys tokens)
  | None => None
  end.

Definition is_delimiter : ascii -> bool := one_of "/#?".

(** A literal of the regular expression, which has the flag [i]. *)
Fixpoint literal (p s : string) : option string :=
  match p, s with
  | EmptyString, _ => Some s
  | String a p', String b s' =>
      if Ascii.eqb (lower_ascii a) (lower_ascii b) then literal p' s' else None
  | String _ _, EmptyString => None
  end.

(** The group [([^\/#\?]+?)] followed by the rest of the expression [k]:
    the shortest run of characters that lets [k] match. *)
Fixpoint lazy_segment (k : string -> option (list string)) (taken s : string)
  : option (list string) :=
  match s with
  | EmptyString => None
  | String c r =>
      if is_delimiter c then None
      else
        let taken' := (taken ++ String c "")%string in
        match k r with
        | Some groups => Some (taken' :: groups)
        | None => lazy_segment k taken' r
        end
  end.

(** The expression [^ tokens [\/#\?]? $] on [s]: the capture groups. *)
Fixpoint exec (tokens : list Token) (s : string) : option (list string) :=
  match tokens with
  | [] =>
      match s with
      | EmptyString => Some []
      | String c EmptyString => if is_delimiter c then Some [] else None
      | _ => None
      end
  | Text t :: rest =>
      match literal t s with
      | Some s' => exec rest s'
      | None => None
      end
  | Param prefix _ :: rest =>
      match literal prefix s with
      | Some s' => lazy_segment (exec rest) "" s'
      | None => None
      end
  end.

Definition String_match (s : string) (re : list Token)
  : option (list (option string)) :=
  match exec re s with
  | Some groups => Some (Some s :: map Some groups)
  | None => None
  end.

(** The function [compile] returns, applied to [params]. *)
Fixpoint PathFunction_call (tokens : list Token) (params : Params)
  : option string :=
  match tokens with
  | [] => Some ""
  | Text t :: rest =>
      match PathFunction_call rest params with
      | Some r => Some (t ++ r)%string
      | None => None
      end
  | Param prefix nm :: rest =>
      match lookup nm params with
      | Some (Some value) =>
          let segment := encodeURIComponent value in
          if segment =? "" then None
          else match PathFunction_call rest params with
               | Some r => Some (prefix ++ segment ++ r)%string
               | None => None
               end
      | _ => None
      end
  end.

(** *** URL *)

Record URL := mkURL {
  scheme : string;
  hostname : string;
  port : option N;
  pathname : string;
  query : option string;
  searchParams : list (string * string);
  fragment : option string
}.

Definition default_port (scheme : string) : option N :=
  if scheme =? "http" then Some 80%N
  else if scheme =? "https" then Some 443%N
  else None.

Definition is_host_char (c : ascii) : bool :=
  is_alpha c || is_digit c || one_of "_-." c.

Definition last_label (h : string) : string :=
  last (JS.split "." h) "".

Definition parse_hostname (h : string) : option string :=
  let h := toLowerCase h in
  if all_chars is_host_char h
     && negb (JS.includes "xn--" h)
     && match last_label h with
        | String c _ => is_alpha c || Ascii.eqb c "_"
        | EmptyString => false
        end
  then Some h else None.

Fixpoint digits_value (s : string) (acc : N) : N :=
  match s with
  | String c r => digits_value r (10 * acc + (N_of_ascii c - 48))%N
  | EmptyString => acc
  end.

(** The port after the colon: [Some None] for none or the default one. *)
Definition parse_port (scheme p : string) : option (option N) :=
  if p =? "" then Some None
  else if all_chars is_digit p then
    let n := digits_value p 0 in
    if N.leb n 65535 then
      Some (if match default_port scheme with
               | Some d => N.eqb d n
               | None => false
               end then None else Some n)
    else None
  else None.

Definition is_plain_char (c : ascii) : bool :=
  is_alpha c || is_digit c || one_of "-._~:@!$&'()*+,;=/" c.

Definition path_ok (p : string) : bool :=
  all_chars is_plain_char p
  && negb (existsb (fun seg => (seg =? ".") || (seg =? "..")) (JS.split "/" p)).

Definition is_form_char (c : ascii) : bool :=
  is_alpha c || is_digit c || one_of "*-._" c.

Definition query_ok : string -> bool :=
  all_chars (fun c => is_form_char c || one_of "&=" c).

(** The application/x-www-form-urlencoded parser and serializer. *)
Definition parse_pair (s : string) : string * string :=
  let '(k, v) := break_at (Ascii.eqb "=") s in
  (k, JS.slice_from 1 v).

Definition parse_query (q : string) : list (string * string) :=
  map parse_pair (filter (fun s => negb (s =? "")) (JS.split "&" q)).

Fixpoint form_encode (s : string) : string :=
  match s with
  | String c r =>
      ((if Ascii.eqb c " " then "+"
        else if is_form_char c then String c "" else percent c)
       ++ form_encode r)%string
  | EmptyString => EmptyString
  end.

Fixpoint serialize_query (l : list (string * string)) : string :=
  match l with
  | [] => ""
  | [(k, v)] => (form_encode k ++ "=" ++ form_encode v)%string
  | (k, v) :: r =>
      (form_encode k ++ "=" ++ form_encode v ++ "&" ++ serialize_query r)%string
  end.

Definition new_URL (input : string) : option URL :=
  let '(sch, rest) := break_at (Ascii.eqb ":") input in
  let sch := toLowerCase sch in
  if negb ((sch =? "http") || (sch =? "https")) then None
  else if negb (JS.startsWith "://" rest) then None
  else
    let '(authority, rest) := break_at (fun c => one_of "/?#" c || Ascii.eqb c backslash)
                                       (JS.slice_from 3 rest) in
    let '(h, p) := break_at (Ascii.eqb ":") authority in
    match parse_hostname h, parse_port sch (JS.slice_from 1 p) with
    | Some h, Some p =>
        let '(pth, rest) := break_at (one_of "?#") rest in
        let '(q, f) := break_at (Ascii.eqb "#") rest in
        let q := if JS.startsWith "?" q then Some (JS.slice_from 1 q) else None in
        let f := if JS.startsWith "#" f then Some (JS.slice_from 1 f) else None in
        if path_ok pth
           && match q with Some q => query_ok q | None => true end
           && match f with Some f => all_chars is_plain_char f | None => true end
        then Some (mkURL sch h p (if pth =? "" then "/" else pth) q
                         (match q with Some q => parse_query q | None => [] end) f)
        else None
    | _, _ => None
    end.

Definition URL_protocol (u : URL) : string := scheme u ++ ":".

Definition URL_host (u : URL) : string :=
  match port u with
  | Some n => (hostname u ++ ":" ++ NilEmpty.string_of_uint (N.to_uint n))%string
  | None => hostname u
  end.

Definition URL_set_protocol (value : string) (u : URL) : URL :=
  let value := toLowerCase (fst (break_at (Ascii.eqb ":") value)) in
  if (value =? "http") || (value =? "https") then
    mkURL value (hostname u)
          (match port u, default_port value with
           | Some n, Some d => if N.eqb n d then None else Some n
           | p, _ => p
           end)
          (pathname u) (query u) (searchParams u) (fragment u)
  else u.

Definition URL_set_host (value : string) (u : URL) : URL :=
  let '(h, p) := break_at (Ascii.eqb ":") value in
  match parse_hostname h with
  | Some h =>
      let port' := if JS.startsWith ":" p
                   then match parse_port (scheme u) (JS.slice_from 1 p) with
                        | Some p => p
                        | None => port u
                        end
                   else port u in
      mkURL (scheme u) h port' (pathname u) (query u) (searchParams u) (fragment u)
  | None => u
  end.

Definition URL_set_pathname (value : string) (u : URL) : URL :=
  if path_ok value && all_chars (fun c => negb (one_of "?#" c)) value then
    mkURL (scheme u) (hostname u) (port u)
          (if JS.startsWith "/" value then value else ("/" ++ value)%string)
          (query u) (searchParams u) (fragment u)
  else u.

Definition URL_searchParams_append (k v : string) (u : URL) : URL :=
  let l := searchParams u ++ [(k, v)] in
  mkURL (scheme u) (hostname u) (port u) (pathname u)
        (Some (serialize_query l)) l (fragment u).

Definition URL_toString (u : URL) : string :=
  (scheme u ++ "://" ++ URL_host u ++ pathname u
   ++ match query u with Some q => "?" ++ q | None => "" end
   ++ match fragment u with Some f => "#" ++ f | None => "" end)%string.

End Node.

#[global] Instance node : Platform (list Node.Token) (list Node.Token) Node.URL := {|
  pathToRegexp := Node.pathToRegexp;
  String_match := Node.String_match;
  compileRedirectPath := Node.parse;
  PathFunction_call := Node.PathFunction_call;
  new_URL := Node.new_URL;
  URL_protocol := Node.URL_protocol;
  URL_host := Node.URL_host;
  URL_pathname := Node.pathname;
  URL_searchParams := Node.searchParams;
  URL_set_protocol := Node.URL_set_protocol;
  URL_set_host := Node.URL_set_host;
  URL_set_pathname := Node.URL_set_pathname;
  URL_searchParams_append := Node.URL_searchParams_append;
  URL_toString := Node.URL_toString
|}.

(** The requests of the examples. *)
Definition GET (host url path : string) : Request :=
  mkRequest "GET" url path [("host", host)].

(** The array [redirects] the closure holds for a rules text. *)
Definition compiled (redirectsString : string)
  : list (RedirectRule (list Node.Token) (list Node.Token) Node.URL) :=
  match getRedirectsMiddleware redirectsString with
  | (_, Returned redirects) => redirects
  | (_, Threw) => []
  end.

(** What the claims say of a rule's destination URL: protocol, host,
    pathname and query parameters. *)
Definition url_state (u : Node.URL)
  : string * string * string * list (string * string) :=
  (Node.URL_protocol u, Node.URL_host u, Node.pathname u, Node.searchParams u).

Definition two_lines (a b : string) : string :=
  (a ++ String JS.LF b)%string.


(** ** The compiler line by line

    What one line gives to the result of [getRedirectsMiddleware]: the rule
    it pushes, if it pushes one, and the diagnostic it logs, if it logs
    one. *)
Section Lines.

Context {RegExp PathFunction URL : Type} {P : Platform RegExp PathFunction URL}.

Definition line_rules (numbered : nat * string)
  : list (RedirectRule RegExp PathFunction URL) :=
  match compile_line (fst numbered) (snd numbered) with
  | Pushed r => [r]
  | _ => []
  end.

Definition line_diagnostics (numbered : nat * string)
  : list (Diagnostic RegExp PathFunction URL) :=
  match compile_line (fst numbered) (snd numbered) with
  | Logged d => [d]
  | _ => []
  end.

(** The lines with their indices, from [lineNumber] on. *)
Definition numbered_from (lineNumber : nat) (lines : list string)
  : list (nat * string) :=
  combine (seq lineNumber (List.length lines)) lines.

End Lines.

(** ** purgeRequireCache (index.js, lines 72-83)

    [require.cache] is an object keyed by module path; it is embedded as
    the list of its properties.  The loop deletes the properties whose key
    starts with [BUILD_DIR], the build directory under the working
    directory of the process. *)
Definition purgeRequireCache {Module_ : Type} (BUILD_DIR : string)
           (cache : list (string * Module_)) : list (string * Module_) :=
  filter (fun entry => negb (JS.startsWith BUILD_DIR (fst entry))) cache.

(** ** The episode route of the same file (lines 228-244 and 300-339)

    The route reads and compares JavaScript numbers and reads episode
    objects whose type is declared elsewhere.  They come through this
    interface, over the type of numbers and the type of episode objects:

    - [Number], [strict_equal] ([===]), [minus_one] ([n - 1]), [plus_one]
      ([n + 1]) and [String_] ([String(n)], which is also what a template
      literal writes);
    - the properties [episodeNumber], [slug] and [updatedAt] of an episode,
      the last one already through [new Date(...).toISOString()], which
      throws for a date that is not valid ([None]);
    - [getFeaturedEpisode], imported from another module. *)
Class Podcast (number Episode : Type) : Type := {
  Number : string -> number;
  strict_equal : number -> number -> bool;
  minus_one : number -> number;
  plus_one : number -> number;
  String_ : number -> string;
  episodeNumber : Episode -> number;
  episode_slug : Episode -> string;
  updatedAt_toISOString : Episode -> option string;
  getFeaturedEpisode : list Episode -> option Episode
}.

(** [s.padStart(targetLength, fill)] for a [fill] of one character. *)
Fixpoint repeat_char (fill : ascii) (n : nat) : string :=
  match n with
  | O => EmptyString
  | S n' => String fill (repeat_char fill n')
  end.

Definition padStart (targetLength : nat) (fill : ascii) (s : string) : string :=
  (repeat_char fill (targetLength - String.length s) ++ s)%string.

(** [arr.find(p)] together with the index of what it finds: the first
    element that satisfies [p]. *)
Fixpoint find_index {A} (p : A -> bool) (i : nat) (l : list A) : option (nat * A) :=
  match l with
  | [] => None
  | x :: r => if p x then Some (i, x) else find_index p (S i) r
  end.

(** The array without the element of index [i]. *)
Definition without_index {A} (i : nat) (l : list A) : list A :=
  firstn i l ++ skipn (S i) l.

Section Route.

Context {number Episode : Type} {C : Podcast number Episode}.

Record Season := mkSeason {
  seasonNumber : number;
  episodes : list Episode
}.

(** The route parameters [slug], [season] and [episode]. *)
Record RouteParams := mkRouteParams {
  params_slug : string;
  params_season : string;
  params_episode : string
}.

Record LoaderData := mkLoaderData {
  prevEpisode : option Episode;
  nextEpisode : option Episode;
  featured : option Episode;
  episode : Episode
}.

(** How the loader ends: [throw new Response(body, {status})],
    [return redirect(location)], or [return json(data, {headers})]. *)
Inductive Loaded :=
| ThrownResponse (body : string) (status : nat)
| Redirected (location : string)
| Json (data : LoaderData) (headers : list (string * string)).

(** [loader], lines 300-339, given the seasons [getSeasons] resolved to.
    [episode !== e] compares objects: the filter drops the object [find]
    returned, which is the element at the index where it was found (an
    array of episodes does not hold one object twice). *)
Definition loader (params : RouteParams) (seasons : list Season) : Loaded :=
  let seasonNumber_ := Number (params_season params) in
  let episodeNumber_ := Number (params_episode params) in
  match find (fun s => strict_equal (seasonNumber s) seasonNumber_) seasons with
  | None => ThrownResponse ("Season " ++ String_ seasonNumber_ ++ " not found") 404
  | Some season =>
      match find_index (fun e => strict_equal (episodeNumber e) episodeNumber_)
                       0 (episodes season) with
      | None => ThrownResponse ("Episode " ++ String_ episodeNumber_ ++ " not found") 404
      | Some (i, episode) =>
          if negb (episode_slug episode =? params_slug params) then
            Redirected ("/chats/" ++ params_season params ++ "/"
                        ++ params_episode params ++ "/" ++ episode_slug episode)
          else
            Json (mkLoaderData
                    (find (fun e => strict_equal (episodeNumber e)
                                                 (minus_one episodeNumber_))
                          (episodes season))
                    (find (fun e => strict_equal (episodeNumber e)
                                                 (plus_one episodeNumber_))
                          (episodes season))
                    (getFeaturedEpisode (without_index i (episodes season)))
                    episode)
                 [("Cache-Control", "public, max-age=600"); ("Vary", "Cookie")]
      end
  end.

(** An entry of the sitemap.  [priority] is the literal [0.4] as it is
    written. *)
Record SitemapEntry := mkSitemapEntry {
  route : string;
  changefreq : string;
  lastmod : string;
  priority : string
}.

(** The body of the inner [map], lines 232-241.  [None]: [toISOString]
    throws. *)
Definition sitemap_entry (season : Season) (episode : Episode) : option SitemapEntry :=
  let s := padStart 2 "0" (String_ (seasonNumber season)) in
  let e := padStart 2 "0" (String_ (episodeNumber episode)) in
  match updatedAt_toISOString episode with
  | None => None
  | Some lastmod =>
      Some (mkSitemapEntry ("/chats/" ++ s ++ "/" ++ e ++ "/" ++ episode_slug episode)
                           "weekly" lastmod "0.4")
  end.

(** [arr.map(f)] for an [f] that may throw: the first exception ends it. *)
Fixpoint map_throwing {A B} (f : A -> option B) (l : list A) : option (list B) :=
  match l with
  | [] => Some []
  | x :: r =>
      match f x with
      | None => None
      | Some y =>
          match map_throwing f r with
          | None => None
          | Some ys => Some (y :: ys)
          end
      end
  end.

(** [handle.getSitemapEntries], lines 229-243, given the seasons: the
    [flatMap] over the seasons of the [map] over their episodes. *)
Definition getSitemapEntries (seasons : list Season) : option (list SitemapEntry) :=
  match map_throwing (fun season => map_throwing (sitemap_entry season) (episodes season))
                     seasons with
  | None => None
  | Some entries => Some (List.concat entries)
  end.

End Route.

Arguments Season : clear implicits.
Arguments LoaderData : clear implicits.
Arguments Loaded : clear implicits.

(** Numbers that are told apart by [===], each being [===] to itself (so
    none is [NaN]). *)
Fixpoint pairwise_distinct {A} (eqb : A -> A -> bool) (l : list A) : bool :=
  match l with
  | [] => true
  | x :: r => eqb x x && forallb (fun y => negb (eqb x y)) r && pairwise_distinct eqb r
  end.

(** *** One implementation of the route's interface

    Numbers are the integers and [NaN] ([None]); [Number] is right on the
    strings of decimal digits and on the strings of white space, and gives
    [NaN] elsewhere.  An episode is its number, its slug and the ISO form
    of its date. *)
Module Cast.

Record Episode := mkEpisode {
  number : option Z;
  slug : string;
  updated : option string
}.

Fixpoint digits_value (s : string) (acc : Z) : Z :=
  match s with
  | String c r => digits_value r (10 * acc + (Z.of_nat (nat_of_ascii c) - 48))%Z
  | EmptyString => acc
  end.

Definition Number (s : string) : option Z :=
  let s := JS.trim s in
  if s =? "" then Some 0%Z
  else if Node.all_chars Node.is_digit s then Some (digits_value s 0)
  else None.

Definition strict_equal (a b : option Z) : bool :=
  match a, b with
  | Some x, Some y => Z.eqb x y
  | _, _ => false
  end.

Definition String_ (n : option Z) : string :=
  match n with
  | Some z => NilEmpty.string_of_int (Z.to_int z)
  | None => "NaN"
  end.

End Cast.

#[global] Instance cast : Podcast (option Z) Cast.Episode := {|
  Number := Cast.Number;
  strict_equal := Cast.strict_equal;
  minus_one := option_map Z.pred;
  plus_one := option_map Z.succ;
  String_ := Cast.String_;
  episodeNumber := Cast.number;
  episode_slug := Cast.slug;
  updatedAt_toISOString := Cast.updated;
  getFeaturedEpisode := @hd_error Cast.Episode
|}.

(** The seasons of the examples. *)
Definition cast_episode (n : Z) (slug : string) : Cast.Episode :=
  Cast.mkEpisode (Some n) slug (Some "2021-06-01T00:00:00.000Z").

Definition cast_seasons : list (Season (option Z) Cast.Episode) :=
  [mkSeason (Some 1%Z)
            [cast_episode 1 "one"; cast_episode 2 "two"; cast_episode 3 "three"]].

(** * Properties *)

(** ** Strings *)

Lemma slice_from_app (a b : string) :
  JS.slice_from (String.length a) (a ++ b) = b.
Proof.
  induction a as [|c a IH]; simpl.
  - destruct b; reflexivity.
  - exact IH.
Qed.

Lemma endsWith_app_slash (p : string) : JS.endsWith "/" (p ++ "/") = true.
Proof.
  induction p as [|c p IH].
  - reflexivity.
  - change (((String c p ++ "/")%string =? "/") || JS.endsWith "/" (p ++ "/") = true).
    rewrite IH. apply orb_true_r.
Qed.

Lemma slice_0_m1_app (p : string) : JS.slice_0_m1 (p ++ "/") = p.
Proof.
  induction p as [|c p IH].
  - reflexivity.
  - destruct p as [|d p]; [reflexivity|].
    change (String c (JS.slice_0_m1 (String d p ++ "/")) = String c (String d p)).
    now rewrite IH.
Qed.

Lemma length_app_slash (p : string) :
  String.length (p ++ "/") = S (String.length p).
Proof.
  induction p as [|c p IH]; simpl; [reflexivity | now rewrite IH].
Qed.

Lemma includes_tail (p : string) (c : ascii) (s : string) :
  JS.includes p (String c s) = false -> JS.includes p s = false.
Proof.
  intros H.
  change (String.prefix p (String c s) || JS.includes p s = false) in H.
  now apply orb_false_iff in H.
Qed.

(** A string without two slashes in a row has no run to collapse. *)
Lemma replace_slashes_id (s : string) :
  JS.includes "//" s = false -> JS.replace_slashes s = s.
Proof.
  induction s as [|c s IH]; intros H; [reflexivity|].
  pose proof (IH (includes_tail _ _ _ H)) as IH'.
  simpl. destruct (Ascii.eqb_spec c "/") as [->|Hc].
  - destruct s as [|d s]; [reflexivity|].
    destruct (Ascii.eqb_spec d "/") as [->|Hd].
    + simpl in H. destruct s; discriminate H.
    + now rewrite IH'.
  - now rewrite IH'.
Qed.

Lemma array_includes_In (x : string) (arr : list string) :
  JS.array_includes x arr = true <-> In x arr.
Proof.
  unfold JS.array_includes. rewrite existsb_exists. split.
  - intros (y & Hy & E). apply String.eqb_eq in E. now subst.
  - intros H. exists x. split; [exact H | apply String.eqb_refl].
Qed.

Lemma trimEnd_cons (c : ascii) (s : string) :
  JS.is_white_space c = false -> JS.trimEnd (String c s) = String c (JS.trimEnd s).
Proof. intros H. simpl. now rewrite H. Qed.

Lemma trimStart_first (s : string) :
  JS.trimStart s = ""
  \/ exists c t, JS.trimStart s = String c t /\ JS.is_white_space c = false.
Proof.
  induction s as [|c s IH]; simpl; [now left|].
  destruct (JS.is_white_space c) eqn:E; [exact IH|].
  right. now exists c, s.
Qed.

(** A trimmed string is empty or starts with a character that is not
    white space. *)
Lemma trim_first (s : string) :
  JS.trim s = ""
  \/ exists c t, JS.trim s = String c t /\ JS.is_white_space c = false.
Proof.
  unfold JS.trim. destruct (trimStart_first s) as [->|(c & t & -> & H)].
  - now left.
  - right. exists c, (JS.trimEnd t). split; [now apply trimEnd_cons | exact H].
Qed.

(** So the first token of a line that is not blank is always there:
    [one.split] never throws. *)
Lemma line_tokens_nonempty (c : ascii) (t : string) :
  JS.is_white_space c = false -> line_tokens (String c t) <> [].
Proof.
  intros H. unfold line_tokens.
  assert (Hsp : Ascii.eqb c " " = false).
  { destruct (Ascii.eqb_spec c " ") as [->|]; [discriminate H | reflexivity]. }
  simpl JS.split. rewrite Hsp.
  assert (forall h tl, filter (fun l => negb (l =? "")) (map JS.trim (String c h :: tl)) <> []) as K.
  { intros h tl. simpl map. unfold JS.trim at 1. simpl JS.trimStart. rewrite H.
    rewrite trimEnd_cons by exact H. simpl. discriminate. }
  destruct (JS.split " " t); apply K.
Qed.

(** ** The trailing-slash middleware *)

(** C9 as written fails: the path [/a//b/] is not redirected to [/a//b],
    the path with its last slash stripped and otherwise unchanged, but to
    [/a/b]. *)
Lemma trailing_slash_changes_path :
  let req := mkRequest "GET" "/a//b/?x=1" "/a//b/" [] in
  url req = (path req ++ "?x=1")%string
  /\ JS.endsWith "/" (path req) = true
  /\ 1 < String.length (path req)
  /\ trailingSlashMiddleware req = Redirect 301 "/a/b?x=1"
  /\ trailingSlashMiddleware req <> Redirect 301 (JS.slice_0_m1 (path req) ++ "?x=1").
Proof.
  simpl. repeat split; try reflexivity; try lia. discriminate.
Qed.

(** ** The rule compiler: method tokens *)

(** C10.  The first token is a method list exactly when one of the seven
    strings of [possibleMethods] is, as it stands, an element of its split
    on commas; the whole split is then the rule's methods, whatever else it
    holds.  Otherwise the methods are [*] and the first token is the
    [from] pattern.  So [get] is a pattern, and [GET,FOO] keeps [FOO]: the
    line [get /a /b] compiles, without a diagnostic, to a rule for all
    methods from the pattern [get] to [/a], and the line [GET,FOO /a /b]
    to a rule whose methods are [GET] and [FOO]. *)
Theorem method_token_recognition :
  (forall one two three,
      ((exists m, In m possibleMethods /\ In m (JS.split "," one))
       /\ resolve one two three = (JS.split "," one, two, three))
      \/ ((forall m, In m possibleMethods -> ~ In m (JS.split "," one))
          /\ resolve one two three = (["*"], Some one, two)))
  /\ resolve "get" (Some "/a") (Some "/b") = (["*"], Some "get", Some "/a")
  /\ resolve "GET,FOO" (Some "/a") (Some "/b") = (["GET"; "FOO"], Some "/a", Some "/b")
  /\ fst (getRedirectsMiddleware (P := node) "get /a /b") = []
  /\ map (fun r => (methods r, from r, url_state (toUrl r))) (compiled "get /a /b")
     = [(["*"], [Node.Text "get"], ("https:", "same_host", "/a", []))]
  /\ map (fun r => methods r) (compiled "GET,FOO /a /b") = [["GET"; "FOO"]].
Proof.
  split; [|repeat split; vm_compute; reflexivity].
  intros one two three. unfold resolve.
  destruct (existsb (fun m => JS.array_includes m (JS.split "," one)) possibleMethods)
    eqn:E.
  - left. split; [|reflexivity].
    apply existsb_exists in E. destruct E as (m & Hm & Hin).
    exists m. split; [exact Hm | now apply array_includes_In].
  - right. split; [|reflexivity].
    intros m Hm Hin.
    assert (existsb (fun m => JS.array_includes m (JS.split "," one)) possibleMethods
            = true) as E'.
    { apply existsb_exists. exists m. split; [exact Hm | now apply array_includes_In]. }
    congruence.
Qed.

(** ** The rule compiler, over any implementation of the libraries *)

Section CompilerProperties.

Context {RegExp PathFunction URL : Type} {P : Platform RegExp PathFunction URL}.

(** The only exception that leaves the body of the loop is that of
    [new URL], on a line that has both a [from] and a [to]. *)
Lemma compile_line_Thrown (lineNumber : nat) (raw : string) :
  compile_line lineNumber raw = Thrown ->
  exists one rest methods from to,
    line_tokens (JS.trim raw) = one :: rest
    /\ resolve one (nth_error rest 0) (nth_error rest 1) = (methods, Some from, Some to)
    /\ new_toUrl to = None.
Proof.
  unfold compile_line.
  destruct (trim_first raw) as [->|(c & t & -> & Hc)]; [discriminate|].
  destruct ((String c t =? "") || JS.startsWith "#" (String c t)); [discriminate|].
  pose proof (@line_tokens_nonempty c t Hc) as Hne.
  destruct (line_tokens (String c t)) as [|one rest] eqn:Ht; [contradiction|].
  destruct (resolve one (nth_error rest 0) (nth_error rest 1))
    as [[methods from] to] eqn:Hr.
  destruct (negb (JS.truthy from) || negb (JS.truthy to)); [discriminate|].
  destruct from as [from|]; [|discriminate].
  destruct to as [to|]; [|discriminate].
  destruct (new_toUrl to) as [toUrl|] eqn:E.
  - destruct (pathToRegexp from) as [[re keys]|]; [|discriminate].
    destruct (compileRedirectPath (URL_pathname toUrl)); discriminate.
  - intros _. exists one, rest, methods, from, to. now repeat split.
Qed.

(** The two diagnostics of the compiler: both carry the trimmed line; the
    first numbers the lines from 1, the second from 0. *)
Lemma compile_line_Logged (lineNumber : nat) (raw : string) d :
  compile_line lineNumber raw = Logged d ->
  d = invalid_redirect lineNumber (JS.trim raw)
  \/ d = failed_to_parse lineNumber (JS.trim raw).
Proof.
  unfold compile_line.
  destruct ((JS.trim raw =? "") || JS.startsWith "#" (JS.trim raw)); [discriminate|].
  destruct (line_tokens (JS.trim raw)) as [|one rest]; [discriminate|].
  destruct (resolve one (nth_error rest 0) (nth_error rest 1)) as [[methods from] to].
  destruct (negb (JS.truthy from) || negb (JS.truthy to)).
  { intros E. injection E as <-. now left. }
  destruct from as [from|]; [|intros E; injection E as <-; now left].
  destruct to as [to|]; [|intros E; injection E as <-; now left].
  destruct (new_toUrl to) as [toUrl|]; [|discriminate].
  destruct (pathToRegexp from) as [[re keys]|];
    [|intros E; injection E as <-; now right].
  destruct (compileRedirectPath (URL_pathname toUrl));
    [discriminate | intros E; injection E as <-; now right].
Qed.

(** The loop ends by an exception exactly when some line makes [new URL]
    throw. *)
Lemma compile_lines_Threw lines : forall lineNumber redirects console,
  snd (compile_lines lineNumber lines redirects console) = Threw <->
  exists i raw, nth_error lines i = Some raw
                /\ compile_line (lineNumber + i) raw = Thrown.
Proof.
  induction lines as [|raw lines IH]; intros n rs c; simpl.
  - split; [discriminate|]. intros ([|i] & raw & H & _); discriminate H.
  - assert (forall rs' c',
      snd (compile_lines (S n) lines rs' c') = Threw <->
      exists i raw0, nth_error (raw :: lines) (S i) = Some raw0
                     /\ compile_line (n + S i) raw0 = Thrown) as Hrest.
    { intros rs' c'. rewrite IH. simpl.
      split; intros (i & raw0 & H1 & H2); exists i, raw0; split; try exact H1.
      - now rewrite Nat.add_succ_r.
      - now rewrite Nat.add_succ_r in H2. }
    destruct (compile_line n raw) eqn:E.
    1-3: rewrite Hrest; split;
      [ intros (i & raw0 & H); now exists (S i), raw0
      | intros ([|i] & raw0 & H1 & H2);
        [ simpl in H1; injection H1 as <-; rewrite Nat.add_0_r in H2; congruence
        | now exists i, raw0 ] ].
    split; [|reflexivity]. intros _. exists 0, raw. rewrite Nat.add_0_r. now split.
Qed.

End CompilerProperties.

(** ** The matcher, over any implementation of the libraries *)

Section MatcherProperties.

Context {RegExp PathFunction URL : Type} {P : Platform RegExp PathFunction URL}.

Lemma append_all_searchParams {L : PlatformLaws P}
      (entries : list (string * string)) (u : URL) :
  URL_searchParams (append_all entries u) = URL_searchParams u ++ entries.
Proof.
  unfold append_all. revert u.
  induction entries as [|[k v] entries IH]; intros u; simpl.
  - now rewrite app_nil_r.
  - rewrite IH, searchParams_append, <- app_assoc. reflexivity.
Qed.

(** A redirect is sent exactly when method and path match, the captured
    values are bound and the template expands. *)
Lemma try_redirect_Sent protocol reqUrl req redirect redirect' :
  try_redirect protocol reqUrl req redirect = Sent redirect' <->
  method_matches redirect req = true /\
  exists match_ params pathname,
    String_match (path req) (from redirect) = Some match_
    /\ bind_params (keys redirect) (tl match_) [] = Some params
    /\ PathFunction_call (toPathname redirect) params = Some pathname
    /\ redirect' = with_toUrl redirect (destination protocol reqUrl pathname redirect).
Proof.
  unfold try_redirect, destination. split.
  - destruct (method_matches redirect req); simpl; [|discriminate].
    destruct (String_match (path req) (from redirect)) as [m|] eqn:H1;
      [|discriminate].
    destruct (bind_params (keys redirect) (tl m) []) as [params|] eqn:H2;
      [|discriminate].
    destruct (PathFunction_call (toPathname redirect) params) as [pathname|] eqn:H3;
      [|discriminate].
    intros E. injection E as <-. split; [reflexivity|].
    exists m, params, pathname. repeat split; assumption.
  - intros (Hm & m & params & pathname & H1 & H2 & H3 & ->).
    now rewrite Hm, H1, H2, H3.
Qed.

(** A rule is passed over untouched exactly when its method set or its
    pattern does not match. *)
Lemma try_redirect_Continue protocol reqUrl req redirect :
  try_redirect protocol reqUrl req redirect = Continue <->
  method_matches redirect req = false
  \/ String_match (path req) (from redirect) = None.
Proof.
  unfold try_redirect. split.
  - destruct (method_matches redirect req); simpl; [|now left].
    destruct (String_match (path req) (from redirect)) as [m|]; [|now right].
    destruct (bind_params (keys redirect) (tl m) []) as [params|]; [|discriminate].
    destruct (PathFunction_call (toPathname redirect) params); discriminate.
  - intros [H|H].
    + now rewrite H.
    + rewrite H. now destruct (method_matches redirect req).
Qed.

(** The loop answers with a redirect only for a rule that sent it. *)
Lemma redirects_loop_Redirect protocol reqUrl req redirects status location :
  response (redirects_loop protocol reqUrl req redirects) = Redirect status location ->
  exists redirect redirect',
    In redirect redirects
    /\ try_redirect protocol reqUrl req redirect = Sent redirect'
    /\ status = 307
    /\ location = URL_toString (toUrl redirect').
Proof.
  induction redirects as [|r rest IH]; simpl; [discriminate|].
  destruct (try_redirect protocol reqUrl req r) as [|r'|r'] eqn:E; simpl.
  - intros H. destruct (IH H) as (x & x' & Hin & Hx).
    exists x, x'. split; [now right | exact Hx].
  - intros H. destruct (IH H) as (x & x' & Hin & Hx).
    exists x, x'. split; [now right | exact Hx].
  - intros H. injection H as <- <-.
    exists r, r'. repeat split; [now left | exact E].
Qed.

(** The loop stops at the first rule that sends a redirect: the rules
    after it are as they were. *)
Lemma redirects_loop_first protocol reqUrl req pre redirect redirect' post :
  (forall r r', In r pre -> try_redirect protocol reqUrl req r <> Sent r') ->
  try_redirect protocol reqUrl req redirect = Sent redirect' ->
  response (redirects_loop protocol reqUrl req (pre ++ redirect :: post))
  = Redirect 307 (URL_toString (toUrl redirect'))
  /\ exists pre',
      List.length pre' = List.length pre
      /\ redirects_after (redirects_loop protocol reqUrl req (pre ++ redirect :: post))
         = pre' ++ redirect' :: post.
Proof.
  intros Hpre Hsent. induction pre as [|r pre IH]; simpl.
  - rewrite Hsent. simpl. split; [reflexivity|]. now exists [].
  - destruct IH as (IH1 & pre' & IH2 & IH3).
    { intros x x' Hin. apply Hpre. now right. }
    destruct (try_redirect protocol reqUrl req r) as [|r'|r'] eqn:E; simpl.
    + split; [exact IH1|]. exists (r :: pre'). simpl. now rewrite IH2, IH3.
    + split; [exact IH1|]. exists (r' :: pre'). simpl. now rewrite IH2, IH3.
    + exfalso. apply (Hpre r r'); [now left | exact E].
Qed.

Lemma redirects_loop_none protocol reqUrl req redirects :
  (forall r r', In r redirects -> try_redirect protocol reqUrl req r <> Sent r') ->
  response (redirects_loop protocol reqUrl req redirects) = Next.
Proof.
  induction redirects as [|r rest IH]; intros H; simpl; [reflexivity|].
  destruct (try_redirect protocol reqUrl req r) as [|r'|r'] eqn:E; simpl.
  - apply IH. intros x x' Hin. apply H. now right.
  - apply IH. intros x x' Hin. apply H. now right.
  - exfalso. apply (H r r'); [now left | exact E].
Qed.

(** The loop itself never throws: it redirects or goes on. *)
Lemma redirects_loop_caught protocol reqUrl req redirects :
  response (redirects_loop protocol reqUrl req redirects) <> Uncaught.
Proof.
  induction redirects as [|r rest IH]; simpl; [discriminate|].
  destruct (try_redirect protocol reqUrl req r); simpl;
    [exact IH | exact IH | discriminate].
Qed.

(** With a host header the handler never throws. *)
Lemma redirectsMiddleware_with_host redirects req host :
  resolve_host req = Some host ->
  response (redirectsMiddleware redirects req) <> Uncaught.
Proof.
  intros H. unfold redirectsMiddleware. rewrite H.
  destruct (new_URL _); [apply redirects_loop_caught | discriminate].
Qed.

(** What a request can change of a rule is its URL object only. *)
Lemma try_redirect_toUrl protocol reqUrl req redirect redirect' :
  try_redirect protocol reqUrl req redirect = Caught redirect'
  \/ try_redirect protocol reqUrl req redirect = Sent redirect' ->
  exists u, redirect' = with_toUrl redirect u.
Proof.
  unfold try_redirect.
  destruct (negb (method_matches redirect req)); [intros [H|H]; discriminate H|].
  destruct (String_match (path req) (from redirect)) as [m|];
    [|intros [H|H]; discriminate H].
  destruct (bind_params (keys redirect) (tl m) []) as [params|].
  - destruct (PathFunction_call (toPathname redirect) params);
      intros [H|H]; try discriminate H; injection H as <-; eexists; reflexivity.
  - intros [H|H]; [|discriminate H]. injection H as <-.
    exists (toUrl redirect). now destruct redirect.
Qed.

Lemma redirects_loop_rules protocol reqUrl req redirects :
  Forall2 (fun r r' => exists u, r' = with_toUrl r u)
          redirects
          (redirects_after (redirects_loop protocol reqUrl req redirects)).
Proof.
  assert (Hrefl : forall l : list (RedirectRule RegExp PathFunction URL),
             Forall2 (fun r r' => exists u, r' = with_toUrl r u) l l).
  { induction l as [|r l IHl]; constructor; [|exact IHl].
    exists (toUrl r). now destruct r. }
  induction redirects as [|r rest IH]; simpl; [constructor|].
  destruct (try_redirect protocol reqUrl req r) as [|r'|r'] eqn:E; simpl.
  - constructor; [|exact IH]. exists (toUrl r). now destruct r.
  - constructor; [|exact IH]. apply (try_redirect_toUrl protocol reqUrl req). now left.
  - constructor; [|apply Hrefl]. apply (try_redirect_toUrl protocol reqUrl req). now right.
Qed.

(** An exception is caught exactly when method and pattern match and
    binding the captured values, or expanding the template, throws. *)
Lemma try_redirect_Caught protocol reqUrl req redirect :
  (exists redirect', try_redirect protocol reqUrl req redirect = Caught redirect') <->
  method_matches redirect req = true
  /\ exists match_,
      String_match (path req) (from redirect) = Some match_
      /\ (bind_params (keys redirect) (tl match_) [] = None
          \/ exists params,
              bind_params (keys redirect) (tl match_) [] = Some params
              /\ PathFunction_call (toPathname redirect) params = None).
Proof.
  unfold try_redirect. split.
  - intros [r' H].
    destruct (method_matches redirect req); simpl in H; [|discriminate].
    split; [reflexivity|].
    destruct (String_match (path req) (from redirect)) as [m|]; [|discriminate].
    exists m. split; [reflexivity|].
    destruct (bind_params (keys redirect) (tl m) []) as [params|]; [|now left].
    right. exists params. split; [reflexivity|].
    destruct (PathFunction_call (toPathname redirect) params); [discriminate | reflexivity].
  - intros (Hm & m & Hmatch & [Hb|(params & Hb & Hp)]); rewrite Hm, Hmatch, Hb; simpl.
    + eexists. reflexivity.
    + rewrite Hp. eexists. reflexivity.
Qed.

(** The loop up to the first rule that sends a redirect: what it answers,
    what it logs and what it leaves of the rules. *)
Lemma redirects_loop_first_log protocol reqUrl req pre redirect redirect' post :
  (forall r r', In r pre -> try_redirect protocol reqUrl req r <> Sent r') ->
  try_redirect protocol reqUrl req redirect = Sent redirect' ->
  redirects_loop protocol reqUrl req (pre ++ redirect :: post)
  = mkHandled
      (Redirect 307 (URL_toString (toUrl redirect')))
      (flat_map (fun r => match try_redirect protocol reqUrl req r with
                          | Caught r' => [console_error_redirect
                                            "Error processing redirects:" r' (url req)]
                          | _ => []
                          end) pre)
      (map (fun r => match try_redirect protocol reqUrl req r with
                     | Caught r' => r'
                     | _ => r
                     end) pre ++ redirect' :: post).
Proof.
  intros Hpre Hsent. induction pre as [|r pre IH]; simpl.
  - now rewrite Hsent.
  - rewrite IH by (intros x x' Hin; apply Hpre; now right).
    destruct (try_redirect protocol reqUrl req r) as [|r'|r'] eqn:E; simpl;
      try reflexivity.
    exfalso. apply (Hpre r r'); [now left | exact E].
Qed.

Lemma redirects_loop_none_log protocol reqUrl req redirects :
  (forall r r', In r redirects -> try_redirect protocol reqUrl req r <> Sent r') ->
  redirects_loop protocol reqUrl req redirects
  = mkHandled
      Next
      (flat_map (fun r => match try_redirect protocol reqUrl req r with
                          | Caught r' => [console_error_redirect
                                            "Error processing redirects:" r' (url req)]
                          | _ => []
                          end) redirects)
      (map (fun r => match try_redirect protocol reqUrl req r with
                     | Caught r' => r'
                     | _ => r
                     end) redirects).
Proof.
  induction redirects as [|r rest IH]; intros H; simpl; [reflexivity|].
  rewrite IH by (intros x x' Hin; apply H; now right).
  destruct (try_redirect protocol reqUrl req r) as [|r'|r'] eqn:E; simpl;
    try reflexivity.
  exfalso. apply (H r r'); [now left | exact E].
Qed.

End MatcherProperties.

Section MatcherClaims.

Context {RegExp PathFunction URL : Type} {P : Platform RegExp PathFunction URL}.

(** C3 fails on the code for a request that has neither header.  With
    [X-Forwarded-Host] and [Host] both absent, whatever the rules are,
    the handler ends by an exception: [host] is [undefined] and
    [host.includes] throws before the first [try]. *)
Theorem no_host_header_throws (redirects : list (RedirectRule RegExp PathFunction URL)) (req : Request)
        (Hx : header req "X-Forwarded-Host" = None)
        (Hh : header req "host" = None) :
  redirectsMiddleware redirects req = mkHandled Uncaught [] redirects.
Proof.
  unfold redirectsMiddleware, resolve_host. now rewrite Hx, Hh.
Qed.

(** C5.  Whenever the matcher answers with a redirect, the redirect is
    that of one rule of the array, with status 307, to the URL the rule's
    [toUrl] has become; the query parameters of that URL are those the
    rule's [toUrl] had when the request came, in their order, followed by
    all the query parameters of the request URL, in their order.  None is
    replaced and none is dropped. *)
Theorem query_parameters_appended {L : PlatformLaws P}
        (redirects : list (RedirectRule RegExp PathFunction URL)) (req : Request)
        (status : nat) (location : string)
        (H : response (redirectsMiddleware redirects req) = Redirect status location) :
  exists host reqUrl redirect redirect',
    resolve_host req = Some host
    /\ new_URL (resolve_protocol host ++ "://" ++ host ++ url req) = Some reqUrl
    /\ In redirect redirects
    /\ try_redirect (resolve_protocol host) reqUrl req redirect = Sent redirect'
    /\ status = 307
    /\ location = URL_toString (toUrl redirect')
    /\ URL_searchParams (toUrl redirect')
       = URL_searchParams (toUrl redirect) ++ URL_searchParams reqUrl.
Proof.
  unfold redirectsMiddleware in H.
  destruct (resolve_host req) as [host|] eqn:Hhost; [|discriminate].
  destruct (new_URL (resolve_protocol host ++ "://" ++ host ++ url req))
    as [reqUrl|] eqn:Hurl; [|discriminate].
  apply redirects_loop_Redirect in H.
  destruct H as (redirect & redirect' & Hin & Hsent & -> & ->).
  exists host, reqUrl, redirect, redirect'.
  repeat (split; [assumption || reflexivity|]).
  apply try_redirect_Sent in Hsent.
  destruct Hsent as (_ & m & params & pathname & _ & _ & _ & ->).
  unfold destination. simpl.
  rewrite searchParams_set_pathname, append_all_searchParams.
  f_equal.
  destruct (URL_host (URL_set_protocol (resolve_protocol host) (toUrl redirect))
            =? "same_host").
  - now rewrite searchParams_set_host, searchParams_set_protocol.
  - now rewrite searchParams_set_protocol.
Qed.

(** C7, as the code has it.  For a request whose host is known and whose
    URL parses: the rules are tried in the order of the array.  A rule is
    passed over untouched exactly when its method set or its pattern does
    not match.  Where both match and binding the parameters or expanding
    the template throws, the exception is caught, one diagnostic
    [Error processing redirects:] with the rule and the URL of the request
    is logged, and the next rule is tried.  The first rule that matches and
    whose destination is built without an exception ends the request with
    one redirect of status 307 to its destination URL: what has been logged
    is one diagnostic for each rule before it that threw, in their order,
    and the rules after it are left as they were.  When no rule gets that
    far the request goes to the next handler, with one diagnostic for each
    rule that threw. *)
Theorem first_successful_rule_wins
        (redirects : list (RedirectRule RegExp PathFunction URL)) (req : Request)
        (host : string) (reqUrl : URL)
        (Hhost : resolve_host req = Some host)
        (Hurl : new_URL (resolve_protocol host ++ "://" ++ host ++ url req)
                = Some reqUrl) :
  let attempt := try_redirect (resolve_protocol host) reqUrl req in
  let logged := fun r => match attempt r with
                         | Caught r' => [console_error_redirect
                                           "Error processing redirects:" r' (url req)]
                         | _ => []
                         end in
  let left := fun r => match attempt r with
                       | Caught r' => r'
                       | _ => r
                       end in
  (forall pre redirect redirect' post,
      redirects = pre ++ redirect :: post ->
      (forall r r', In r pre -> attempt r <> Sent r') ->
      attempt redirect = Sent redirect' ->
      method_matches redirect req = true
      /\ String_match (path req) (from redirect) <> None
      /\ redirectsMiddleware redirects req
         = mkHandled (Redirect 307 (URL_toString (toUrl redirect')))
                     (flat_map logged pre)
                     (map left pre ++ redirect' :: post)
      /\ (forall r r', In r pre -> attempt r = Caught r' ->
            In (console_error_redirect "Error processing redirects:" r' (url req))
               (console (redirectsMiddleware redirects req))))
  /\ (forall r, attempt r = Continue <->
                method_matches r req = false
                \/ String_match (path req) (from r) = None)
  /\ (forall r, (exists r', attempt r = Caught r') <->
                method_matches r req = true
                /\ exists match_,
                    String_match (path req) (from r) = Some match_
                    /\ (bind_params (keys r) (tl match_) [] = None
                        \/ exists params,
                            bind_params (keys r) (tl match_) [] = Some params
                            /\ PathFunction_call (toPathname r) params = None))
  /\ ((forall r r', In r redirects -> attempt r <> Sent r') ->
      redirectsMiddleware redirects req
      = mkHandled Next (flat_map logged redirects) (map left redirects)).
Proof.
  intros attempt logged left. unfold redirectsMiddleware. rewrite Hhost, Hurl.
  split; [|split; [|split]].
  - intros pre redirect redirect' post -> Hpre Hsent.
    pose proof (proj1 (try_redirect_Sent _ _ _ _ _) Hsent)
      as (Hm & m & _ & _ & Hmatch & _).
    split; [exact Hm|]. split; [congruence|].
    rewrite (@redirects_loop_first_log _ _ _ _ (resolve_protocol host) reqUrl req
               pre redirect redirect' post Hpre Hsent).
    split; [reflexivity|].
    intros r r' Hin Hc. simpl. apply in_flat_map. exists r. split; [exact Hin|].
    fold attempt. rewrite Hc. now left.
  - intros r. apply try_redirect_Continue.
  - intros r. apply try_redirect_Caught.
  - intros H. now apply redirects_loop_none_log.
Qed.

End MatcherClaims.

(** ** The examples, on the implementation [Node] *)

Lemma node_laws : PlatformLaws node.
Proof.
  constructor; simpl.
  - intros p u. unfold Node.URL_set_protocol.
    destruct (_ || _); reflexivity.
  - intros h u. unfold Node.URL_set_host.
    destruct (Node.break_at _ h) as [a b].
    destruct (Node.parse_hostname a); reflexivity.
  - intros p u. unfold Node.URL_set_pathname.
    destruct (_ && _); reflexivity.
  - reflexivity.
Qed.

Lemma no_host_header_throws_witness :
  response (redirectsMiddleware (compiled "/old/:id /new/:id")
                                (mkRequest "GET" "/old/42" "/old/42" []))
  = Uncaught.
Proof.
  exact (f_equal response
           (no_host_header_throws (compiled "/old/:id /new/:id")
              (mkRequest "GET" "/old/42" "/old/42" []) eq_refl eq_refl)).
Defined.

Lemma query_parameters_appended_witness :
  exists host reqUrl redirect redirect',
    resolve_host (GET "example.com" "/old/42?ref=abc" "/old/42") = Some host
    /\ new_URL (resolve_protocol host ++ "://" ++ host ++ "/old/42?ref=abc") = Some reqUrl
    /\ In redirect (compiled "/old/:id https://kcd.im/new/:id?ref=x")
    /\ try_redirect (resolve_protocol host) reqUrl
                    (GET "example.com" "/old/42?ref=abc" "/old/42") redirect
       = Sent redirect'
    /\ 307 = 307
    /\ "https://kcd.im/new/42?ref=x&ref=abc" = URL_toString (toUrl redirect')
    /\ URL_searchParams (toUrl redirect')
       = URL_searchParams (toUrl redirect) ++ URL_searchParams reqUrl.
Proof.
  exact (@query_parameters_appended _ _ _ node node_laws
           (compiled "/old/:id https://kcd.im/new/:id?ref=x")
           (GET "example.com" "/old/42?ref=abc" "/old/42")
           307 "https://kcd.im/new/42?ref=x&ref=abc" eq_refl).
Defined.

Lemma set_pathname_plain (u : Node.URL) :
  Node.pathname (Node.URL_set_pathname "/new/42" u) = "/new/42".
Proof.
  unfold Node.URL_set_pathname. simpl. reflexivity.
Qed.

(** C8.  The rules text [/old/:id /new/:id] compiles to one rule, whose
    only key is [id].  For a request with the path [/old/42], a known host
    and a URL that parses, the pattern captures [42], the captured value is
    bound to the name [id], the template gives [/new/42], and the answer is
    a redirect of status 307 to a URL whose pathname is [/new/42]; that
    holds whatever state [u] the rule's URL object is in.  Values go to
    the template by name: with [/a/:x/:y /b/:y/:x] the path [/a/1/2] is
    redirected to [/b/2/1]. *)
Theorem old_id_to_new_id (req : Request) (host : string) (reqUrl u : Node.URL)
        (rule : RedirectRule (list Node.Token) (list Node.Token) Node.URL)
        (Hrule : getRedirectsMiddleware "/old/:id /new/:id" = ([], Returned [rule]))
        (Hpath : path req = "/old/42")
        (Hhost : resolve_host req = Some host)
        (Hurl : new_URL (resolve_protocol host ++ "://" ++ host ++ url req)
                = Some reqUrl) :
  String_match (path req) (from rule) = Some [Some "/old/42"; Some "42"]
  /\ keys rule = [mkKey "id"]
  /\ bind_params (keys rule) [Some "42"] [] = Some [("id", Some "42")]
  /\ PathFunction_call (toPathname rule) [("id", Some "42")] = Some "/new/42"
  /\ (exists redirect',
         redirectsMiddleware [with_toUrl rule u] req
         = mkHandled (Redirect 307 (URL_toString (toUrl redirect'))) [] [redirect']
         /\ URL_pathname (toUrl redirect') = "/new/42")
  /\ response (redirectsMiddleware (compiled "/a/:x/:y /b/:y/:x")
                                   (GET "example.com" "/a/1/2" "/a/1/2"))
     = Redirect 307 "https://example.com/b/2/1".
Proof.
  vm_compute in Hrule. injection Hrule as <-.
  rewrite Hpath.
  assert (M : String_match "/old/42" [Node.Text "/old"; Node.Param "/" "id"]
              = Some [Some "/old/42"; Some "42"]) by (vm_compute; reflexivity).
  assert (F : PathFunction_call [Node.Text "/new"; Node.Param "/" "id"]
                                [("id", Some "42")]
              = Some "/new/42") by (vm_compute; reflexivity).
  split; [exact M|]. split; [reflexivity|]. split; [reflexivity|].
  split; [exact F|]. split; [|vm_compute; reflexivity].
  unfold redirectsMiddleware. rewrite Hhost, Hurl.
  match goal with |- context [redirects_loop ?p ?r ?q [?x]] =>
    assert (E : try_redirect p r q x
                = Sent (with_toUrl x (destination p r "/new/42" x))) end.
  { apply try_redirect_Sent. split.
    - unfold method_matches. simpl. reflexivity.
    - exists [Some "/old/42"; Some "42"], [("id", Some "42")], "/new/42".
      rewrite Hpath. split; [exact M|]. split; [reflexivity|].
      split; [exact F|]. reflexivity. }
  unfold redirects_loop. rewrite E.
  eexists. split; [reflexivity|].
  unfold with_toUrl, destination. simpl toUrl. apply set_pathname_plain.
Qed.

Lemma old_id_to_new_id_witness :
  let req := mkRequest "POST" "/old/42" "/old/42" [("x-forwarded-host", "localhost:3000")] in
  let u := Node.mkURL "https" "same_host" None "/new/:id" None [] None in
  let rule := mkRule ["*"] [Node.Text "/old"; Node.Param "/" "id"] [mkKey "id"]
                     [Node.Text "/new"; Node.Param "/" "id"] u in
  String_match (path req) (from rule) = Some [Some "/old/42"; Some "42"]
  /\ keys rule = [mkKey "id"]
  /\ bind_params (keys rule) [Some "42"] [] = Some [("id", Some "42")]
  /\ PathFunction_call (toPathname rule) [("id", Some "42")] = Some "/new/42"
  /\ (exists redirect',
         redirectsMiddleware [with_toUrl rule u] req
         = mkHandled (Redirect 307 (URL_toString (toUrl redirect'))) [] [redirect']
         /\ URL_pathname (toUrl redirect') = "/new/42")
  /\ response (redirectsMiddleware (compiled "/a/:x/:y /b/:y/:x")
                                   (GET "example.com" "/a/1/2" "/a/1/2"))
     = Redirect 307 "https://example.com/b/2/1".
Proof.
  intros req u rule.
  refine (@old_id_to_new_id req "localhost:3000"
            (Node.mkURL "http" "localhost" (Some 3000%N) "/old/42" None [] None)
            u rule _ _ _ _); vm_compute; reflexivity.
Defined.

(** C1 fails on the code.  The local [toUrl] of the handler is the URL
    object of the rule, and the handler assigns to it.  After one request
    for [/old/42?ref=abc] on [example.com], the rule compiled from
    [/old/:id /new/:id] no longer has the host [same_host], the pathname
    [/new/:id] and no query parameter: it has the host, the pathname and
    the query parameter of that request's redirect. *)
Theorem matcher_mutates_shared_rule :
  let redirects := compiled "/old/:id /new/:id" in
  let h := redirectsMiddleware redirects
             (GET "example.com" "/old/42?ref=abc" "/old/42") in
  map (fun r => url_state (toUrl r)) redirects
  = [("https:", "same_host", "/new/:id", [])]
  /\ response h = Redirect 307 "https://example.com/new/42?ref=abc"
  /\ map (fun r => url_state (toUrl r)) (redirects_after h)
     = [("https:", "example.com", "/new/42", [("ref", "abc")])]
  /\ redirects_after h <> redirects.
Proof.
  intros redirects h.
  split; [vm_compute; reflexivity|].
  split; [vm_compute; reflexivity|].
  split; [vm_compute; reflexivity|].
  intros E. apply (f_equal (map (fun r => url_state (toUrl r)))) in E.
  vm_compute in E. discriminate E.
Qed.

(** C6 fails on the code, by the same assignment to the shared URL object
    as C1.  The destination [/new/:id] is a path only.  A first request on
    [example.com] replaces the host [same_host] of the rule's URL object;
    a second request, on [kcd.im], is then redirected to [example.com],
    where the same request against the rules as compiled is redirected to
    [kcd.im]. *)
Theorem second_request_gets_first_host :
  let redirects := compiled "/old/:id /new/:id" in
  let req1 := GET "example.com" "/old/42" "/old/42" in
  let req2 := GET "kcd.im" "/old/7" "/old/7" in
  resolve_host req2 = Some "kcd.im"
  /\ response (redirectsMiddleware redirects req2)
     = Redirect 307 "https://kcd.im/new/7"
  /\ fst (serve redirects [req1; req2])
     = [Redirect 307 "https://example.com/new/42";
        Redirect 307 "https://example.com/new/7"].
Proof.
  intros redirects req1 req2. repeat split; vm_compute; reflexivity.
Qed.

(** C2 fails on the code.  [new URL(to)] is evaluated before the [try]
    block.  The destination [//b] holds two slashes and is no URL: the
    exception leaves [getRedirectsMiddleware], no rule set is returned and
    the valid second line is never compiled, although alone it compiles to
    one rule. *)
Theorem invalid_destination_url_throws :
  getRedirectsMiddleware (two_lines "/a //b" "/c /d") = ([], Threw)
  /\ List.length (compiled "/c /d") = 1.
Proof.
  split; vm_compute; reflexivity.
Qed.

(** C4 fails on the code.  Both diagnostics below are for the first line
    of the rules text.  The one for a missing destination says line 1; the
    one for a pattern that does not parse says line 0, the index of the
    line. *)
Theorem parse_failure_reports_line_index :
  getRedirectsMiddleware "/a"
  = ([console_error ("Invalid redirect on line 1: "
                     ++ JS.dquote ++ "/a" ++ JS.dquote)], Returned [])
  /\ getRedirectsMiddleware "/: /b"
     = ([console_error ("Failed to parse redirect on line 0: "
                        ++ JS.dquote ++ "/: /b" ++ JS.dquote)], Returned []).
Proof.
  split; vm_compute; reflexivity.
Qed.

(** C7 as written fails.  Both rules match the method and the path of the
    request.  The first one has no value for [:id], expanding its template
    throws, and the redirect is that of the second rule, which was
    evaluated: its URL object has taken the host of the request. *)
Lemma later_rule_evaluated :
  let redirects := compiled (two_lines "/old /new/:id" "/old /other") in
  let req := GET "example.com" "/old" "/old" in
  let h := redirectsMiddleware redirects req in
  map (fun r => method_matches r req) redirects = [true; true]
  /\ map (fun r => String_match (path req) (from r)) redirects
     = [Some [Some "/old"]; Some [Some "/old"]]
  /\ map (fun r => url_state (toUrl r)) redirects
     = [("https:", "same_host", "/new/:id", []);
        ("https:", "same_host", "/other", [])]
  /\ response h = Redirect 307 "https://example.com/other"
  /\ map (fun r => url_state (toUrl r)) (redirects_after h)
     = [("https:", "example.com", "/new/:id", []);
        ("https:", "example.com", "/other", [])].
Proof.
  intros redirects req h. repeat split; vm_compute; reflexivity.
Qed.

Lemma first_successful_rule_wins_witness :
  let r1' := mkRule ["*"] [Node.Text "/old"] []
                    [Node.Text "/new"; Node.Param "/" "id"]
                    (Node.mkURL "https" "example.com" None "/new/:id" None [] None) in
  let r2' := mkRule ["*"] [Node.Text "/old"] [] [Node.Text "/other"]
                    (Node.mkURL "https" "example.com" None "/other" None [] None) in
  redirectsMiddleware (compiled (two_lines "/old /new/:id" "/old /other"))
                      (GET "example.com" "/old" "/old")
  = mkHandled (Redirect 307 "https://example.com/other")
              [console_error_redirect "Error processing redirects:" r1' "/old"]
              [r1'; r2'].
Proof.
  intros r1' r2'.
  pose (req := GET "example.com" "/old" "/old").
  pose (reqUrl := Node.mkURL "https" "example.com" None "/old" None [] None).
  pose (r1 := mkRule ["*"] [Node.Text "/old"] []
                     [Node.Text "/new"; Node.Param "/" "id"]
                     (Node.mkURL "https" "same_host" None "/new/:id" None [] None)).
  pose (r2 := mkRule ["*"] [Node.Text "/old"] [] [Node.Text "/other"]
                     (Node.mkURL "https" "same_host" None "/other" None [] None)).
  destruct (@first_successful_rule_wins _ _ _ node
              (compiled (two_lines "/old /new/:id" "/old /other"))
              req "example.com" reqUrl eq_refl eq_refl) as [H _].
  destruct (H [r1] r2 r2' [] eq_refl) as (_ & _ & Hhandled & _).
  - intros r r' [<-|[]] E. vm_compute in E. discriminate E.
  - vm_compute. reflexivity.
  - exact Hhandled.
Defined.

(** * Further properties *)

(** ** The trailing-slash middleware: where it redirects to *)

Lemma includes_cons (p : string) (c : ascii) (s : string) :
  JS.includes p (String c s) = String.prefix p (String c s) || JS.includes p s.
Proof. reflexivity. Qed.

Lemma replace_slashes_cons_other (c : ascii) (s : string) :
  Ascii.eqb c "/" = false ->
  JS.replace_slashes (String c s) = String c (JS.replace_slashes s).
Proof. intros H. simpl. now rewrite H. Qed.

Lemma prefix_cons (a b : ascii) (p s : string) :
  String.prefix (String a p) (String b s)
  = if ascii_dec a b then String.prefix p s else false.
Proof. reflexivity. Qed.

Lemma prefix_empty (s : string) : String.prefix "" s = true.
Proof. destruct s; reflexivity. Qed.

Lemma prefix_2slash (c d : ascii) (s : string) :
  String.prefix "//" (String c (String d s)) = Ascii.eqb c "/" && Ascii.eqb d "/".
Proof.
  rewrite prefix_cons. destruct (ascii_dec "/" c) as [<-|Hc].
  - rewrite prefix_cons. destruct (ascii_dec "/" d) as [<-|Hd].
    + now rewrite prefix_empty.
    + symmetry. apply andb_false_iff. right. apply Ascii.eqb_neq. congruence.
  - symmetry. apply andb_false_iff. left. apply Ascii.eqb_neq. congruence.
Qed.

Lemma prefix_2slash_other (c : ascii) (s : string) :
  Ascii.eqb c "/" = false -> String.prefix "//" (String c s) = false.
Proof.
  intros H. rewrite prefix_cons. destruct (ascii_dec "/" c) as [<-|]; [|reflexivity].
  discriminate H.
Qed.

Lemma startsWith_slash (s : string) : JS.startsWith "/" (String "/" s) = true.
Proof.
  unfold JS.startsWith. rewrite prefix_cons.
  destruct (ascii_dec "/" "/"); [apply prefix_empty | congruence].
Qed.

Lemma replace_slashes_run (d : ascii) (s : string) :
  Ascii.eqb d "/" = true ->
  JS.replace_slashes (String "/" (String d s)) = JS.replace_slashes (String d s).
Proof. intros H. simpl. now rewrite H. Qed.

Lemma replace_slashes_single (d : ascii) (s : string) :
  Ascii.eqb d "/" = false ->
  JS.replace_slashes (String "/" (String d s))
  = String "/" (JS.replace_slashes (String d s)).
Proof. intros H. simpl. now rewrite H. Qed.

(** One slash stands for each run of slashes. *)
Lemma replace_slashes_no_run (s : string) :
  JS.includes "//" (JS.replace_slashes s) = false.
Proof.
  induction s as [|c s IH]; [reflexivity|].
  destruct (Ascii.eqb c "/") eqn:Hc.
  - apply Ascii.eqb_eq in Hc. subst c.
    destruct s as [|d s]; [reflexivity|].
    destruct (Ascii.eqb d "/") eqn:Hd.
    + now rewrite replace_slashes_run.
    + rewrite replace_slashes_single by exact Hd.
      rewrite includes_cons, IH, orb_false_r.
      rewrite replace_slashes_cons_other by exact Hd.
      rewrite prefix_2slash, Hd. apply andb_false_r.
  - rewrite replace_slashes_cons_other by exact Hc.
    rewrite includes_cons, IH, orb_false_r.
    now apply prefix_2slash_other.
Qed.

Lemma replace_slashes_length (s : string) :
  String.length (JS.replace_slashes s) <= String.length s.
Proof.
  induction s as [|c s IH]; [apply le_n|].
  destruct (Ascii.eqb c "/") eqn:Hc.
  - apply Ascii.eqb_eq in Hc. subst c.
    destruct s as [|d s]; [apply le_n|].
    destruct (Ascii.eqb d "/") eqn:Hd.
    + rewrite replace_slashes_run by exact Hd. simpl String.length in *. lia.
    + rewrite replace_slashes_single by exact Hd. simpl String.length in *. lia.
  - rewrite replace_slashes_cons_other by exact Hc. simpl String.length. lia.
Qed.

Lemma replace_slashes_first (s : string) :
  JS.startsWith "/" s = true -> JS.startsWith "/" (JS.replace_slashes s) = true.
Proof.
  induction s as [|c s IH]; [discriminate|].
  intros H. unfold JS.startsWith in H. rewrite prefix_cons in H.
  destruct (ascii_dec "/" c) as [<-|]; [|discriminate].
  destruct s as [|d s]; [apply startsWith_slash|].
  destruct (Ascii.eqb d "/") eqn:Hd.
  - rewrite replace_slashes_run by exact Hd. apply IH.
    apply Ascii.eqb_eq in Hd. subst d. apply startsWith_slash.
  - rewrite replace_slashes_single by exact Hd. apply startsWith_slash.
Qed.

Lemma replace_slashes_empty (s : string) :
  JS.replace_slashes s = "" -> s = "".
Proof.
  induction s as [|c s IH]; [reflexivity|].
  destruct (Ascii.eqb c "/") eqn:Hc.
  - apply Ascii.eqb_eq in Hc. subst c.
    destruct s as [|d s]; [discriminate|].
    destruct (Ascii.eqb d "/") eqn:Hd.
    + rewrite replace_slashes_run by exact Hd. intros H. apply IH in H. discriminate H.
    + rewrite replace_slashes_single by exact Hd. discriminate.
  - rewrite replace_slashes_cons_other by exact Hc. discriminate.
Qed.

Lemma slice_0_m1_length (s : string) :
  String.length (JS.slice_0_m1 s) = pred (String.length s).
Proof.
  induction s as [|c s IH]; [reflexivity|].
  destruct s as [|d s]; [reflexivity|].
  change (JS.slice_0_m1 (String c (String d s)))
    with (String c (JS.slice_0_m1 (String d s))).
  simpl String.length in *. now rewrite IH.
Qed.

Lemma slice_0_m1_first (s : string) :
  1 < String.length s -> JS.startsWith "/" s = true ->
  JS.startsWith "/" (JS.slice_0_m1 s) = true.
Proof.
  destruct s as [|c [|d s]]; simpl String.length; try lia.
  intros _ H. unfold JS.startsWith in *.
  change (JS.slice_0_m1 (String c (String d s)))
    with (String c (JS.slice_0_m1 (String d s))).
  rewrite prefix_cons in *.
  destruct (ascii_dec "/" c); [apply prefix_empty | discriminate].
Qed.

(** A string that ends with a slash is what [slice(0, -1)] leaves of it,
    followed by the slash. *)
Lemma endsWith_slash_inv (s : string) :
  JS.endsWith "/" s = true -> s = (JS.slice_0_m1 s ++ "/")%string.
Proof.
  induction s as [|c s IH]; [discriminate|].
  intros H. destruct s as [|d s].
  - change ((String c "" =? "/") || false = true) in H.
    rewrite orb_false_r in H. apply String.eqb_eq in H. exact H.
  - change (JS.slice_0_m1 (String c (String d s)))
      with (String c (JS.slice_0_m1 (String d s))).
    simpl append. f_equal. apply IH.
    change ((String c (String d s) =? "/") || JS.endsWith "/" (String d s) = true) in H.
    apply orb_true_iff in H. destruct H as [H|H]; [|exact H].
    apply String.eqb_eq in H. discriminate H.
Qed.

Lemma prefix_app_l (p x y : string) :
  String.prefix p (x ++ y) = false -> String.prefix p x = false.
Proof.
  revert x. induction p as [|e p IHp]; intros x.
  - now rewrite prefix_empty.
  - destruct x as [|f x]; [reflexivity|].
    simpl append. rewrite !prefix_cons.
    destruct (ascii_dec e f); [apply IHp | reflexivity].
Qed.

Lemma includes_app_l (p a b : string) :
  p <> "" -> JS.includes p (a ++ b) = false -> JS.includes p a = false.
Proof.
  intros Hp. induction a as [|c a IH]; simpl append.
  - intros _. destruct p; [contradiction | reflexivity].
  - rewrite !includes_cons. intros H. apply orb_false_iff in H.
    destruct H as [H1 H2]. rewrite (IH H2), orb_false_r.
    apply (prefix_app_l p (String c a) b H1).
Qed.

Lemma endsWith_includes_2slash (q : string) :
  JS.endsWith "/" q = true -> JS.includes "//" (q ++ "/") = true.
Proof.
  induction q as [|c q IH]; [discriminate|].
  intros H.
  change ((String c q =? "/") || JS.endsWith "/" q = true) in H.
  simpl append. rewrite includes_cons.
  apply orb_true_iff in H. destruct H as [H|H].
  - apply String.eqb_eq in H. injection H as -> ->. reflexivity.
  - rewrite (IH H). apply orb_true_r.
Qed.


Lemma startsWith_slash_inv (s : string) :
  JS.startsWith "/" s = true -> exists t, s = String "/" t.
Proof.
  destruct s as [|c t]; [discriminate|].
  unfold JS.startsWith. rewrite prefix_cons.
  destruct (ascii_dec "/" c) as [<-|]; [|discriminate]. now exists t.
Qed.

Lemma trailing_slash_Redirect (req : Request) (status : nat) (location : string) :
  trailingSlashMiddleware req = Redirect status location ->
  JS.endsWith "/" (path req) = true
  /\ 1 < String.length (path req)
  /\ status = 301
  /\ location = (JS.replace_slashes (JS.slice_0_m1 (path req))
                 ++ JS.slice_from (String.length (path req)) (url req))%string.
Proof.
  unfold trailingSlashMiddleware.
  destruct (JS.endsWith "/" (path req)) eqn:E; [|discriminate].
  destruct (Nat.ltb 1 (String.length (path req))) eqn:L; [|discriminate].
  simpl. intros H. injection H as <- <-.
  apply Nat.ltb_lt in L. now repeat split.
Qed.

(** [replace(/\/+/g, '/')] drops the slashes that follow a slash. *)
Lemma replace_slashes_spec (s : string) :
  JS.replace_slashes s = without_repeated_slashes false s
  /\ JS.replace_slashes (String "/" s) = String "/" (without_repeated_slashes true s).
Proof.
  induction s as [|d s [IH1 IH2]]; [split; reflexivity|].
  destruct (Ascii.eqb d "/") eqn:Hd.
  - pose proof Hd as Hd'. apply Ascii.eqb_eq in Hd'. subst d. split.
    + rewrite IH2. reflexivity.
    + rewrite replace_slashes_run by reflexivity. rewrite IH2. reflexivity.
  - split.
    + rewrite replace_slashes_cons_other by exact Hd. rewrite IH1.
      simpl. now rewrite Hd.
    + rewrite replace_slashes_single by exact Hd.
      rewrite replace_slashes_cons_other by exact Hd. rewrite IH1.
      simpl. now rewrite Hd.
Qed.

(** C9, as the code has it.  A request whose path is [p/], with [p] not
    empty, is redirected with status 301 to [p] without the slashes that
    directly follow a slash, so that each run of slashes of [p] is one
    slash and nothing else of [p] changes, followed by what the URL holds
    after as many characters as the path has.  That is the query string
    whenever the URL is the path followed by the query string.  A [p]
    without two slashes in a row is kept as it is.  A path that does not
    end in a slash, and the path [/], go to the next handler.  So the
    request for [/a//b/?x=1] is redirected to [/a/b?x=1]. *)
Theorem trailing_slash_redirect (req : Request) :
  (forall p, p <> "" -> path req = (p ++ "/")%string ->
     exists safepath,
       trailingSlashMiddleware req
       = Redirect 301 (safepath ++ JS.slice_from (String.length (path req)) (url req))
       /\ safepath = without_repeated_slashes false p
       /\ JS.includes "//" safepath = false
       /\ (JS.includes "//" p = false -> safepath = p)
       /\ (forall query, url req = (path req ++ query)%string ->
             trailingSlashMiddleware req = Redirect 301 (safepath ++ query)))
  /\ (JS.endsWith "/" (path req) = false -> trailingSlashMiddleware req = Next)
  /\ (path req = "/" -> trailingSlashMiddleware req = Next)
  /\ trailingSlashMiddleware (mkRequest "GET" "/a//b/?x=1" "/a//b/" [])
     = Redirect 301 "/a/b?x=1".
Proof.
  split; [|split; [|split]].
  - intros p Hp Hpath.
    assert (E : trailingSlashMiddleware req
                = Redirect 301 (JS.replace_slashes p
                                ++ JS.slice_from (String.length (path req)) (url req))).
    { unfold trailingSlashMiddleware.
      rewrite Hpath, endsWith_app_slash, slice_0_m1_app, length_app_slash.
      destruct p as [|c p]; [contradiction|]. reflexivity. }
    exists (JS.replace_slashes p).
    split; [exact E|].
    split; [apply replace_slashes_spec|].
    split; [apply replace_slashes_no_run|].
    split; [apply replace_slashes_id|].
    intros query Hurl. rewrite E, Hurl, slice_from_app. reflexivity.
  - intros H. unfold trailingSlashMiddleware. now rewrite H.
  - intros H. unfold trailingSlashMiddleware. now rewrite H.
  - reflexivity.
Qed.

Lemma trailing_slash_redirect_witness :
  trailingSlashMiddleware (mkRequest "GET" "/blog//2021/?page=2" "/blog//2021/" [])
  = Redirect 301 "/blog/2021?page=2".
Proof.
  destruct (proj1 (trailing_slash_redirect
                     (mkRequest "GET" "/blog//2021/?page=2" "/blog//2021/" []))
                  "/blog//2021" ltac:(discriminate) eq_refl)
    as (safepath & _ & Hsafe & _ & _ & H).
  rewrite Hsafe in H. exact (H "?page=2" eq_refl).
Defined.

(** X1.  When the trailing-slash middleware redirects a request whose path
    starts with a slash and whose URL is the path followed by nothing or by
    a query string, the status is 301 and the location is a path without
    two slashes in a row, shorter than the path of the request, followed by
    the query string; the location starts with a slash and does not start
    with two. *)
Theorem trailing_slash_location_starts_with_one_slash (req : Request) (query : string)
        (status : nat) (location : string)
        (Hurl : url req = (path req ++ query)%string)
        (Hpath : JS.startsWith "/" (path req) = true)
        (Hquery : query = "" \/ JS.startsWith "?" query = true)
        (H : trailingSlashMiddleware req = Redirect status location) :
  status = 301
  /\ exists safepath,
      location = (safepath ++ query)%string
      /\ JS.includes "//" safepath = false
      /\ String.length safepath < String.length (path req)
      /\ JS.startsWith "/" location = true
      /\ JS.startsWith "//" location = false.
Proof.
  apply trailing_slash_Redirect in H. destruct H as (Hend & Hlen & -> & ->).
  split; [reflexivity|].
  rewrite Hurl, slice_from_app.
  exists (JS.replace_slashes (JS.slice_0_m1 (path req))).
  split; [reflexivity|].
  pose proof (replace_slashes_no_run (JS.slice_0_m1 (path req))) as Hno.
  split; [exact Hno|].
  split.
  { pose proof (replace_slashes_length (JS.slice_0_m1 (path req))) as Hle.
    rewrite slice_0_m1_length in Hle. lia. }
  pose proof (replace_slashes_first _ (slice_0_m1_first _ Hlen Hpath)) as Hfirst.
  apply startsWith_slash_inv in Hfirst. destruct Hfirst as [t Ht].
  rewrite Ht in *. simpl append.
  split; [apply startsWith_slash|].
  unfold JS.startsWith.
  destruct t as [|d t].
  - simpl append. destruct Hquery as [->|Hq]; [reflexivity|].
    destruct query as [|q query]; [discriminate|].
    unfold JS.startsWith in Hq. rewrite prefix_cons in Hq.
    destruct (ascii_dec "?" q) as [<-|]; [|discriminate].
    rewrite prefix_2slash. reflexivity.
  - simpl append. rewrite prefix_2slash.
    rewrite includes_cons in Hno. apply orb_false_iff in Hno.
    destruct Hno as [Hno _]. rewrite prefix_2slash in Hno. exact Hno.
Qed.

(** X2.  For a request whose URL is its path followed by its query
    string, following the redirects of the trailing-slash middleware ends
    after two of them at the latest: the request for the location of a
    first redirect (its path the location without the query string) passes
    through, or is redirected once more, by stripping one slash, to a
    location whose request passes through. *)
Theorem trailing_slash_at_most_twice (req : Request) (query : string)
        (status : nat) (location : string)
        (Hurl : url req = (path req ++ query)%string)
        (H : trailingSlashMiddleware req = Redirect status location) :
  let safepath := JS.replace_slashes (JS.slice_0_m1 (path req)) in
  let second := mkRequest (method req) location safepath (headers req) in
  let shorter := JS.slice_0_m1 safepath in
  let third := mkRequest (method req) (shorter ++ query) shorter (headers req) in
  location = (safepath ++ query)%string
  /\ (trailingSlashMiddleware second = Next
      \/ (trailingSlashMiddleware second = Redirect 301 (shorter ++ query)
          /\ trailingSlashMiddleware third = Next)).
Proof.
  apply trailing_slash_Redirect in H. destruct H as (_ & _ & _ & Hloc).
  rewrite Hurl, slice_from_app in Hloc. subst location.
  intros safepath second shorter third.
  split; [reflexivity|].
  pose proof (replace_slashes_no_run (JS.slice_0_m1 (path req))) as Hno.
  fold safepath in Hno.
  destruct (trailingSlashMiddleware second) as [status2 location2| |] eqn:T2.
  - right. apply trailing_slash_Redirect in T2.
    destruct T2 as (E & _ & -> & ->). unfold second in *. simpl path in *. simpl url.
    fold safepath. rewrite slice_from_app. fold shorter.
    pose proof (endsWith_slash_inv _ E) as Hsp. fold shorter in Hsp.
    assert (Hshort : JS.includes "//" shorter = false).
    { apply (@includes_app_l "//" shorter "/"); [discriminate|]. now rewrite <- Hsp. }
    rewrite (replace_slashes_id _ Hshort). split; [reflexivity|].
    unfold trailingSlashMiddleware, third. simpl path.
    destruct (JS.endsWith "/" shorter) eqn:E2; [|reflexivity].
    apply endsWith_includes_2slash in E2. rewrite <- Hsp in E2. congruence.
  - now left.
  - unfold trailingSlashMiddleware in T2.
    destruct (_ && _) in T2; discriminate T2.
Qed.

(** ** purgeRequireCache *)

(** X3.  After [purgeRequireCache] a key that starts with the build
    directory is not in the cache, and every other key has the module it
    had; what is left is what was there and does not start with the build
    directory, and purging twice is purging once. *)
Theorem purgeRequireCache_spec (Module_ : Type) (BUILD_DIR : string)
        (cache : list (string * Module_)) :
  (forall key, lookup key (purgeRequireCache BUILD_DIR cache)
               = if JS.startsWith BUILD_DIR key then None else lookup key cache)
  /\ (forall entry, In entry (purgeRequireCache BUILD_DIR cache) <->
                    In entry cache /\ JS.startsWith BUILD_DIR (fst entry) = false)
  /\ purgeRequireCache BUILD_DIR (purgeRequireCache BUILD_DIR cache)
     = purgeRequireCache BUILD_DIR cache.
Proof.
  split; [|split].
  - intros key. induction cache as [|[k m] cache IH]; simpl.
    + now destruct (JS.startsWith BUILD_DIR key).
    + destruct (JS.startsWith BUILD_DIR k) eqn:Ek; simpl.
      * rewrite IH. destruct (String.eqb_spec k key) as [->|]; [|reflexivity].
        now rewrite Ek.
      * destruct (String.eqb_spec k key) as [->|]; [now rewrite Ek | exact IH].
  - intros entry. unfold purgeRequireCache. rewrite filter_In, negb_true_iff.
    reflexivity.
  - unfold purgeRequireCache. induction cache as [|e cache IH]; simpl; [reflexivity|].
    destruct (JS.startsWith BUILD_DIR (fst e)) eqn:E; simpl; [exact IH|].
    now rewrite E, IH.
Qed.

(** ** The rule compiler: lines that give no rule *)

Section CommentLines.

Context {RegExp PathFunction URL : Type} {P : Platform RegExp PathFunction URL}.

Lemma compile_line_Ignored (lineNumber : nat) (raw : string) :
  JS.trim raw = "" \/ JS.startsWith "#" (JS.trim raw) = true ->
  compile_line lineNumber raw = Ignored.
Proof.
  intros H. unfold compile_line.
  destruct H as [-> | ->]; [reflexivity | now rewrite orb_true_r].
Qed.

Lemma compile_lines_Ignored lines : forall lineNumber redirects console,
  (forall raw, In raw lines ->
               JS.trim raw = "" \/ JS.startsWith "#" (JS.trim raw) = true) ->
  compile_lines lineNumber lines redirects console = (console, Returned redirects).
Proof.
  induction lines as [|raw lines IH]; intros n rs c H; simpl; [reflexivity|].
  rewrite compile_line_Ignored by (apply H; now left).
  apply IH. intros x Hx. apply H. now right.
Qed.

(** X4.  A rules text in which every line is blank or, once trimmed,
    starts with [#] compiles to no rule and logs nothing; and with no rule
    no request is ever redirected. *)
Theorem comments_and_blank_lines_compile_to_nothing (redirectsString : string)
        (H : forall raw, In raw (JS.split JS.LF redirectsString) ->
                         JS.trim raw = "" \/ JS.startsWith "#" (JS.trim raw) = true) :
  getRedirectsMiddleware redirectsString = ([], Returned [])
  /\ forall req status location,
      response (redirectsMiddleware [] req) <> Redirect status location.
Proof.
  split.
  - unfold getRedirectsMiddleware. now apply compile_lines_Ignored.
  - intros req status location. unfold redirectsMiddleware.
    destruct (resolve_host req); [|discriminate].
    destruct (new_URL _); discriminate.
Qed.

End CommentLines.

(** ** The rule compiler: exceptions, order and malformed lines *)

Lemma line_tokens_In (line t : string) :
  In t (line_tokens line) -> t <> "".
Proof.
  unfold line_tokens. rewrite filter_In. intros [_ H] ->. discriminate H.
Qed.

Lemma truthy_token (line : string) (tokens : list string) (i : nat) (t : string) :
  line_tokens line = tokens -> nth_error tokens i = Some t ->
  JS.truthy (Some t) = true.
Proof.
  intros <- H. apply nth_error_In in H. apply line_tokens_In in H.
  simpl. destruct (String.eqb_spec t ""); [contradiction | reflexivity].
Qed.

Section CompilerExtras.

Context {RegExp PathFunction URL : Type} {P : Platform RegExp PathFunction URL}.

Lemma resolve_tokens one two three methods from to :
  resolve one two three = (methods, from, to) ->
  (from = two \/ from = Some one) /\ (to = three \/ to = two).
Proof.
  unfold resolve. destruct (existsb _ _); intros H; injection H as <- <- <-; auto.
Qed.

(** The converse of [compile_line_Thrown]. *)
Lemma compile_line_Thrown_intro (lineNumber : nat) (raw : string)
      one rest methods from to :
  JS.startsWith "#" (JS.trim raw) = false ->
  line_tokens (JS.trim raw) = one :: rest ->
  resolve one (nth_error rest 0) (nth_error rest 1) = (methods, Some from, Some to) ->
  new_toUrl to = None ->
  compile_line lineNumber raw = Thrown.
Proof.
  intros Hc Ht Hr Hu. unfold compile_line.
  assert (Hne : (JS.trim raw =? "") = false).
  { destruct (String.eqb_spec (JS.trim raw) "") as [E|]; [|reflexivity].
    rewrite E in Ht. discriminate Ht. }
  rewrite Hne, Hc, Ht, Hr. simpl orb. cbv iota.
  pose proof (resolve_tokens _ _ _ Hr) as [Hfrom Hto].
  assert (Tf : JS.truthy (Some from) = true).
  { destruct Hfrom as [E|E].
    - apply (@truthy_token (JS.trim raw) (one :: rest) 1 from Ht). now rewrite E.
    - injection E as ->. apply (@truthy_token (JS.trim raw) (one :: rest) 0 one Ht).
      reflexivity. }
  assert (Tt : JS.truthy (Some to) = true).
  { destruct Hto as [E|E].
    - apply (@truthy_token (JS.trim raw) (one :: rest) 2 to Ht). now rewrite E.
    - apply (@truthy_token (JS.trim raw) (one :: rest) 1 to Ht). now rewrite E. }
  simpl in Tf, Tt. rewrite Tf, Tt. simpl. now rewrite Hu.
Qed.

(** X5.  [getRedirectsMiddleware] ends by an exception exactly when the
    text has a line that is not a comment, has a [from] and a [to] after
    the method tokens are resolved, and whose [to] makes [new URL] throw.
    Nothing else in the compiler throws. *)
Theorem compiler_throws_iff_destination_url_throws (redirectsString : string) :
  snd (getRedirectsMiddleware redirectsString) = Threw <->
  exists i raw one rest methods from to,
    nth_error (JS.split JS.LF redirectsString) i = Some raw
    /\ JS.startsWith "#" (JS.trim raw) = false
    /\ line_tokens (JS.trim raw) = one :: rest
    /\ resolve one (nth_error rest 0) (nth_error rest 1) = (methods, Some from, Some to)
    /\ new_toUrl to = None.
Proof.
  unfold getRedirectsMiddleware. rewrite compile_lines_Threw. simpl Nat.add. split.
  - intros (i & raw & Hi & Hthrown).
    pose proof Hthrown as Hcomment.
    apply compile_line_Thrown in Hthrown.
    destruct Hthrown as (one & rest & methods & from & to & H1 & H2 & H3).
    exists i, raw, one, rest, methods, from, to.
    repeat (split; [assumption|]). split; [|now split].
    unfold compile_line in Hcomment.
    destruct (JS.startsWith "#" (JS.trim raw)); [|reflexivity].
    rewrite orb_true_r in Hcomment. discriminate Hcomment.
  - intros (i & raw & one & rest & methods & from & to & Hi & Hc & Ht & Hr & Hu).
    exists i, raw. split; [exact Hi|].
    now apply (@compile_line_Thrown_intro i raw one rest methods from to).
Qed.

(** The line number only goes into the text of a diagnostic. *)
Lemma compile_line_number (n m : nat) (raw : string) :
  match compile_line n raw, compile_line m raw with
  | Ignored, Ignored => True
  | Logged _, Logged _ => True
  | Pushed r, Pushed r' => r = r'
  | Thrown, Thrown => True
  | _, _ => False
  end.
Proof.
  unfold compile_line.
  destruct ((JS.trim raw =? "") || JS.startsWith "#" (JS.trim raw)); [exact I|].
  destruct (line_tokens (JS.trim raw)) as [|one rest]; [exact I|].
  destruct (resolve one (nth_error rest 0) (nth_error rest 1)) as [[methods from] to].
  destruct (negb (JS.truthy from) || negb (JS.truthy to)); [exact I|].
  destruct from as [from|]; [|exact I].
  destruct to as [to|]; [|exact I].
  destruct (new_toUrl to) as [toUrl|]; [|exact I].
  destruct (pathToRegexp from) as [[re keys]|]; [|exact I].
  destruct (compileRedirectPath (URL_pathname toUrl)); [reflexivity | exact I].
Qed.

Lemma compile_lines_number lines : forall n m redirects console console',
  snd (compile_lines n lines redirects console)
  = snd (compile_lines m lines redirects console').
Proof.
  induction lines as [|raw lines IH]; intros n m rs c c'; simpl; [reflexivity|].
  pose proof (compile_line_number n m raw) as H.
  destruct (compile_line n raw), (compile_line m raw); try contradiction;
    try apply IH; [subst; apply IH | reflexivity].
Qed.

(** X6.  A line that is ignored or that only logs a diagnostic has no
    effect on the rules: with that line or without it, the loop returns the
    same rules, or throws in both cases. *)
Theorem skipped_line_changes_no_rule (before after : list string) (line : string)
        (lineNumber : nat)
        (H : compile_line lineNumber line = Ignored
             \/ exists d, compile_line lineNumber line = Logged d) :
  snd (compile_lines 0 (before ++ line :: after) [] [])
  = snd (compile_lines 0 (before ++ after) [] []).
Proof.
  assert (K : forall n rs c,
             snd (compile_lines n (before ++ line :: after) rs c)
             = snd (compile_lines n (before ++ after) rs c)).
  { induction before as [|raw before IH]; intros n rs c; simpl.
    - pose proof (compile_line_number lineNumber n line) as Hn.
      destruct H as [H|[d H]]; rewrite H in Hn;
        destruct (compile_line n line); try contradiction;
        apply compile_lines_number.
    - destruct (compile_line n raw); try apply IH. reflexivity. }
  apply K.
Qed.

Lemma compile_lines_Returned lines : forall n redirects console redirects' console',
  compile_lines n lines redirects console = (console', Returned redirects') ->
  redirects' = redirects ++ flat_map line_rules (numbered_from n lines)
  /\ console' = console ++ flat_map line_diagnostics (numbered_from n lines).
Proof.
  unfold numbered_from.
  induction lines as [|raw lines IH]; intros n rs c rs' c'; simpl.
  - intros H. injection H as <- <-. now rewrite !app_nil_r.
  - unfold line_rules at 1, line_diagnostics at 1. simpl fst. simpl snd.
    destruct (compile_line n raw) eqn:E; intros H; try discriminate H;
      apply IH in H; destruct H as [-> ->]; simpl;
      rewrite <- ?app_assoc; now split.
Qed.

(** X7.  When the compiler returns, the rules are the rules pushed by
    the lines, in the order of the lines, and the diagnostics are those
    logged by the lines, in the order of the lines; a line gives one rule,
    or one diagnostic, or nothing. *)
Theorem rules_and_diagnostics_in_line_order (redirectsString : string)
        (console : list (Diagnostic RegExp PathFunction URL))
        (redirects : list (RedirectRule RegExp PathFunction URL))
        (H : getRedirectsMiddleware redirectsString = (console, Returned redirects)) :
  let lines := numbered_from 0 (JS.split JS.LF redirectsString) in
  redirects = flat_map line_rules lines
  /\ console = flat_map line_diagnostics lines
  /\ List.length redirects + List.length console <= List.length lines.
Proof.
  intros lines. unfold getRedirectsMiddleware in H.
  apply compile_lines_Returned in H. simpl in H. destruct H as [-> ->].
  split; [reflexivity|]. split; [reflexivity|].
  fold lines. clear. induction lines as [|l lines IH]; simpl; [apply le_n|].
  rewrite !length_app.
  assert (List.length (line_rules l) + List.length (line_diagnostics l) <= 1).
  { unfold line_rules, line_diagnostics.
    destruct (compile_line (fst l) (snd l)); simpl; lia. }
  lia.
Qed.

(** X8.  A line that is not a comment and has one token only, or a
    method list and one more token only, pushes no rule: it logs
    [Invalid redirect on line n] with the number of the line counted from
    1 and the trimmed line. *)
Theorem line_without_destination_is_logged (lineNumber : nat) (raw one : string)
        (rest : list string)
        (Hcomment : JS.startsWith "#" (JS.trim raw) = false)
        (Htokens : line_tokens (JS.trim raw) = one :: rest)
        (Hfew : rest = []
                \/ (List.length rest = 1
                    /\ exists m, In m possibleMethods /\ In m (JS.split "," one))) :
  compile_line lineNumber raw = Logged (invalid_redirect lineNumber (JS.trim raw)).
Proof.
  unfold compile_line.
  assert (Hne : (JS.trim raw =? "") = false).
  { destruct (String.eqb_spec (JS.trim raw) "") as [E|]; [|reflexivity].
    rewrite E in Htokens. discriminate Htokens. }
  rewrite Hne, Hcomment, Htokens. simpl orb. cbv iota.
  unfold resolve.
  destruct Hfew as [->|[Hlen (m & Hm & Hin)]].
  - simpl nth_error. destruct (existsb _ _); simpl; [reflexivity|].
    now rewrite orb_true_r.
  - assert (E : existsb (fun m => JS.array_includes m (JS.split "," one)) possibleMethods
                = true).
    { apply existsb_exists. exists m. split; [exact Hm | now apply array_includes_In]. }
    rewrite E. destruct rest as [|two [|three rest]]; try discriminate Hlen.
    simpl nth_error. simpl JS.truthy. now rewrite orb_true_r.
Qed.

End CompilerExtras.

(** ** The matcher: parameters, methods and what requests change *)

Lemma lookup_own_property_set_same (k : string) (v : option string)
      (params : Params) :
  lookup k (own_property_set k v params) = Some v.
Proof.
  induction params as [|[k' v'] params IH]; simpl.
  - now rewrite String.eqb_refl.
  - destruct (String.eqb_spec k' k) as [->|Hne]; simpl.
    + now rewrite String.eqb_refl.
    + destruct (String.eqb_spec k' k); [contradiction | exact IH].
Qed.

Lemma lookup_own_property_set_other (k k0 : string) (v : option string)
      (params : Params) :
  k <> k0 -> lookup k0 (own_property_set k v params) = lookup k0 params.
Proof.
  intros Hne. induction params as [|[k' v'] params IH]; simpl.
  - destruct (String.eqb_spec k k0); [contradiction | reflexivity].
  - destruct (String.eqb_spec k' k) as [->|Hk]; simpl.
    + destruct (String.eqb_spec k k0); [contradiction | reflexivity].
    + destruct (String.eqb_spec k' k0); [reflexivity | exact IH].
Qed.

Lemma lookup_params_set_same (k : string) (v : option string) (params : Params) :
  k <> "__proto__" -> lookup k (params_set k v params) = Some v.
Proof.
  intros H. unfold params_set.
  destruct (String.eqb_spec k "__proto__"); [contradiction|].
  apply lookup_own_property_set_same.
Qed.

Lemma lookup_params_set_other (k k0 : string) (v : option string) (params : Params) :
  k <> k0 -> lookup k0 (params_set k v params) = lookup k0 params.
Proof.
  intros H. unfold params_set.
  destruct (k =? "__proto__"); [reflexivity|].
  now apply lookup_own_property_set_other.
Qed.

Lemma lookup_params_set_proto (k : string) (v : option string) (params : Params) :
  lookup "__proto__" (params_set k v params) = lookup "__proto__" params.
Proof.
  unfold params_set. destruct (String.eqb_spec k "__proto__") as [|H]; [reflexivity|].
  now apply lookup_own_property_set_other.
Qed.

Lemma bind_params_None (keys : list Key) : forall paramValues params,
  bind_params keys paramValues params = None <->
  List.length keys < List.length paramValues.
Proof.
  induction keys as [|k keys IH]; intros [|v values] params; simpl.
  - split; [discriminate | lia].
  - split; [lia | reflexivity].
  - split; [discriminate | lia].
  - rewrite IH. lia.
Qed.

Lemma bind_params_lookup (keys : list Key) : forall paramValues params params',
  NoDup (map name keys) ->
  bind_params keys paramValues params = Some params' ->
  (forall i k v, nth_error keys i = Some k -> nth_error paramValues i = Some v ->
                 name k <> "__proto__" ->
                 lookup (name k) params' = Some v)
  /\ (forall key, ~ In key (map name keys) ->
                  lookup key params' = lookup key params)
  /\ lookup "__proto__" params' = lookup "__proto__" params.
Proof.
  induction keys as [|k keys IH]; intros [|v values] params params' Hnd; simpl.
  - intros H. injection H as <-.
    split; [intros [|i]; discriminate | split; reflexivity].
  - discriminate.
  - intros H. injection H as <-.
    split; [intros [|i] ? ? ? E; discriminate E | split; reflexivity].
  - intros H. inversion Hnd as [|x l Hnotin Hnd']; subst.
    destruct (IH values _ params' Hnd' H) as (IH1 & IH2 & IH3). split; [|split].
    + intros [|i] k0 v0; simpl.
      * intros E1 E2 Hname. injection E1 as <-. injection E2 as <-.
        rewrite (IH2 _ Hnotin). now apply lookup_params_set_same.
      * apply IH1.
    + intros key Hkey. rewrite IH2 by tauto.
      apply lookup_params_set_other. tauto.
    + rewrite IH3. apply lookup_params_set_proto.
Qed.

(** X9.  Binding the captured values throws exactly when there are more
    values than keys.  When it succeeds and the keys have distinct names,
    the value of index [i] is the own property of [params] named as the key
    of index [i], unless that name is [__proto__]; [params] has no own
    property [__proto__], and none under a name that is not the name of a
    key.  So a rule whose parameter is named [__proto__] never redirects:
    its template finds no value and the request is passed on. *)
Theorem captured_values_are_bound_by_name (keys : list Key)
        (paramValues : list (option string)) :
  (bind_params keys paramValues [] = None <->
   List.length keys < List.length paramValues)
  /\ (NoDup (map name keys) ->
      forall params, bind_params keys paramValues [] = Some params ->
      (forall i k v, nth_error keys i = Some k -> nth_error paramValues i = Some v ->
                     name k <> "__proto__" ->
                     lookup (name k) params = Some v)
      /\ lookup "__proto__" params = None
      /\ (forall key, ~ In key (map name keys) -> lookup key params = None))
  /\ response (redirectsMiddleware (compiled "/old/:__proto__ /new/:__proto__")
                                   (GET "example.com" "/old/42" "/old/42"))
     = Next.
Proof.
  split; [apply bind_params_None|]. split; [|vm_compute; reflexivity].
  intros Hnd params H.
  destruct (bind_params_lookup keys paramValues [] Hnd H) as (H1 & H2 & H3).
  split; [exact H1|]. split; [exact H3|]. intros key Hkey. now rewrite H2.
Qed.

Section MatcherExtras.

Context {RegExp PathFunction URL : Type} {P : Platform RegExp PathFunction URL}.

Lemma redirects_loop_response protocol (reqUrl : URL) req
      (redirects : list (RedirectRule RegExp PathFunction URL)) :
  response (redirects_loop protocol reqUrl req redirects) = Next
  \/ exists location,
      response (redirects_loop protocol reqUrl req redirects) = Redirect 307 location.
Proof.
  induction redirects as [|r rest IH]; simpl; [now left|].
  destruct (try_redirect protocol reqUrl req r); simpl; [exact IH | exact IH|].
  right. eexists. reflexivity.
Qed.

(** X10.  For a request with a host header the handler never throws: it
    passes the request on or redirects with status 307, and the array of
    rules keeps its length.  When the request URL does not parse it logs
    [Invalid URL: ...], passes the request on and leaves the rules as they
    are. *)
Theorem matcher_with_host_never_throws
        (redirects : list (RedirectRule RegExp PathFunction URL))
        (req : Request) (host : string)
        (Hhost : resolve_host req = Some host) :
  let h := redirectsMiddleware redirects req in
  (response h = Next \/ exists location, response h = Redirect 307 location)
  /\ List.length (redirects_after h) = List.length redirects
  /\ (new_URL (resolve_protocol host ++ "://" ++ host ++ url req) = None ->
      h = mkHandled Next
                    [console_error ("Invalid URL: " ++ resolve_protocol host
                                    ++ "://" ++ host ++ url req)]
                    redirects).
Proof.
  unfold redirectsMiddleware. rewrite Hhost.
  destruct (new_URL (resolve_protocol host ++ "://" ++ host ++ url req))
    as [reqUrl|] eqn:E; simpl.
  - split; [apply redirects_loop_response|]. split; [|discriminate].
    symmetry. apply (Forall2_length (redirects_loop_rules _ reqUrl req redirects)).
  - split; [now left|]. split; reflexivity.
Qed.

(** X11.  A rule whose methods hold neither [*] nor the method of the
    request, as the exact string, is passed over whatever the path is: the
    rule is untouched and the answer is that of the rules after it. *)
Theorem rule_for_other_methods_is_skipped protocol (reqUrl : URL) (req : Request)
        (redirect : RedirectRule RegExp PathFunction URL)
        (rest : list (RedirectRule RegExp PathFunction URL))
        (Hstar : ~ In "*" (methods redirect))
        (Hmethod : ~ In (method req) (methods redirect)) :
  try_redirect protocol reqUrl req redirect = Continue
  /\ redirects_loop protocol reqUrl req (redirect :: rest)
     = let h := redirects_loop protocol reqUrl req rest in
       mkHandled (response h) (console h) (redirect :: redirects_after h).
Proof.
  assert (E : try_redirect protocol reqUrl req redirect = Continue).
  { apply try_redirect_Continue. left. unfold method_matches.
    apply orb_false_iff. split.
    - destruct (JS.array_includes "*" (methods redirect)) eqn:A; [|reflexivity].
      apply array_includes_In in A. contradiction.
    - destruct (JS.array_includes (method req) (methods redirect)) eqn:A; [|reflexivity].
      apply array_includes_In in A. contradiction. }
  split; [exact E|]. simpl. now rewrite E.
Qed.

Lemma redirects_loop_unmatched protocol (reqUrl : URL) req
      (redirects : list (RedirectRule RegExp PathFunction URL)) :
  (forall r, In r redirects ->
             method_matches r req = false
             \/ String_match (path req) (from r) = None) ->
  redirects_loop protocol reqUrl req redirects = mkHandled Next [] redirects.
Proof.
  induction redirects as [|r rest IH]; intros H; simpl; [reflexivity|].
  rewrite (proj2 (try_redirect_Continue protocol reqUrl req r)) by (apply H; now left).
  rewrite IH; [reflexivity|]. intros x Hx. apply H. now right.
Qed.

(** X12.  A request (with a host and a URL that parses) for which every
    rule fails on the method or on the pattern is passed on, nothing is
    logged and the rules are exactly as they were. *)
Theorem unmatched_request_changes_nothing
        (redirects : list (RedirectRule RegExp PathFunction URL))
        (req : Request) (host : string) (reqUrl : URL)
        (Hhost : resolve_host req = Some host)
        (Hurl : new_URL (resolve_protocol host ++ "://" ++ host ++ url req)
                = Some reqUrl)
        (H : forall r, In r redirects ->
                       method_matches r req = false
                       \/ String_match (path req) (from r) = None) :
  redirectsMiddleware redirects req = mkHandled Next [] redirects.
Proof.
  unfold redirectsMiddleware. rewrite Hhost, Hurl.
  now apply redirects_loop_unmatched.
Qed.

Lemma with_toUrl_refl (l : list (RedirectRule RegExp PathFunction URL)) :
  Forall2 (fun r r' => exists u, r' = with_toUrl r u) l l.
Proof.
  induction l as [|r l IH]; constructor; [|exact IH].
  exists (toUrl r). now destruct r.
Qed.

Lemma with_toUrl_trans (a b c : list (RedirectRule RegExp PathFunction URL)) :
  Forall2 (fun r r' => exists u, r' = with_toUrl r u) a b ->
  Forall2 (fun r r' => exists u, r' = with_toUrl r u) b c ->
  Forall2 (fun r r' => exists u, r' = with_toUrl r u) a c.
Proof.
  intros Hab. revert c. induction Hab as [|x y a b [u ->] Hab IH]; intros c Hbc.
  - inversion Hbc. constructor.
  - inversion Hbc as [|y' z b' c' [v ->] Hbc']; subst.
    constructor; [now exists v | now apply IH].
Qed.

Lemma redirectsMiddleware_rules
      (redirects : list (RedirectRule RegExp PathFunction URL)) (req : Request) :
  Forall2 (fun r r' => exists u, r' = with_toUrl r u)
          redirects (redirects_after (redirectsMiddleware redirects req)).
Proof.
  unfold redirectsMiddleware.
  destruct (resolve_host req); [|apply with_toUrl_refl].
  destruct (new_URL _); [apply redirects_loop_rules | apply with_toUrl_refl].
Qed.

(** X13.  Whatever requests are served, there is one response for each
    and the array of rules keeps its rules, in order, with their methods,
    pattern, keys and path template: a request can only change the URL
    object of a rule. *)
Theorem requests_only_change_url_objects
        (redirects : list (RedirectRule RegExp PathFunction URL))
        (reqs : list Request) :
  List.length (fst (serve redirects reqs)) = List.length reqs
  /\ Forall2 (fun r r' => methods r' = methods r /\ from r' = from r
                          /\ keys r' = keys r /\ toPathname r' = toPathname r)
             redirects (snd (serve redirects reqs)).
Proof.
  assert (K : List.length (fst (serve redirects reqs)) = List.length reqs
              /\ Forall2 (fun r r' => exists u, r' = with_toUrl r u)
                         redirects (snd (serve redirects reqs))).
  { revert redirects. induction reqs as [|req reqs IH]; intros redirects; simpl.
    - split; [reflexivity | apply with_toUrl_refl].
    - specialize (IH (redirects_after (redirectsMiddleware redirects req))).
      destruct (serve (redirects_after (redirectsMiddleware redirects req)) reqs)
        as [responses final]. simpl in *. destruct IH as [IH1 IH2].
      split; [now rewrite IH1|].
      eapply with_toUrl_trans; [apply redirectsMiddleware_rules | exact IH2]. }
  destruct K as [K1 K2]. split; [exact K1|].
  eapply Forall2_impl; [|exact K2].
  intros r r' [u ->]. now repeat split.
Qed.

End MatcherExtras.

(** ** The episode route *)

Lemma find_index_find (A : Type) (p : A -> bool) (l : list A) : forall i,
  find p l = match find_index p i l with Some (_, x) => Some x | None => None end.
Proof.
  induction l as [|x l IH]; intros i; simpl; [reflexivity|].
  destruct (p x); [reflexivity | apply IH].
Qed.

Lemma find_index_Some (A : Type) (p : A -> bool) (l : list A) : forall i j x,
  find_index p i l = Some (j, x) ->
  exists before after,
    l = before ++ x :: after
    /\ j = i + List.length before
    /\ p x = true
    /\ forall y, In y before -> p y = false.
Proof.
  induction l as [|a l IH]; intros i j x; simpl; [discriminate|].
  destruct (p a) eqn:E.
  - intros H. injection H as <- <-. exists [], l. simpl.
    repeat split; [lia | exact E | contradiction].
  - intros H. apply IH in H. destruct H as (before & after & -> & -> & Hx & Hb).
    exists (a :: before), after. simpl. repeat split; [lia | exact Hx|].
    intros y [<-|Hy]; [exact E | now apply Hb].
Qed.

Lemma find_index_None (A : Type) (p : A -> bool) (l : list A) : forall i,
  find_index p i l = None <-> forall x, In x l -> p x = false.
Proof.
  induction l as [|a l IH]; intros i; simpl.
  - split; [contradiction | reflexivity].
  - destruct (p a) eqn:E.
    + split; [discriminate|]. intros H. rewrite (H a) in E by now left. discriminate E.
    + rewrite IH. split.
      * intros H x [<-|Hx]; [exact E | now apply H].
      * intros H x Hx. apply H. now right.
Qed.

Lemma find_index_first (A : Type) (p : A -> bool) (before after : list A) (x : A) :
  forall i, p x = true -> (forall y, In y before -> p y = false) ->
  find_index p i (before ++ x :: after) = Some (i + List.length before, x).
Proof.
  induction before as [|a before IH]; intros i Hx Hb; simpl.
  - rewrite Hx. f_equal. f_equal. lia.
  - rewrite (Hb a) by now left. rewrite IH; [f_equal; f_equal; lia | exact Hx|].
    intros y Hy. apply Hb. now right.
Qed.

Lemma find_first (A : Type) (p : A -> bool) (before after : list A) (x : A) :
  p x = true -> (forall y, In y before -> p y = false) ->
  find p (before ++ x :: after) = Some x.
Proof.
  intros Hx Hb. rewrite (find_index_find p _ 0).
  now rewrite find_index_first.
Qed.

Lemma without_index_middle (A : Type) (before after : list A) (x : A) :
  without_index (List.length before) (before ++ x :: after) = before ++ after.
Proof.
  unfold without_index. f_equal.
  - rewrite firstn_app, Nat.sub_diag, firstn_all. simpl. apply app_nil_r.
  - induction before as [|a before IH]; [reflexivity | exact IH].
Qed.

Lemma map_throwing_In (A B : Type) (f : A -> option B) (l : list A) : forall ys,
  map_throwing f l = Some ys ->
  List.length ys = List.length l
  /\ forall y, In y ys -> exists x, In x l /\ f x = Some y.
Proof.
  induction l as [|a l IH]; intros ys; simpl.
  - intros H. injection H as <-. split; [reflexivity | contradiction].
  - destruct (f a) as [b|] eqn:E; [|discriminate].
    destruct (map_throwing f l) as [bs|]; [|discriminate].
    intros H. injection H as <-. destruct (IH bs eq_refl) as [IH1 IH2].
    split; [simpl; now rewrite IH1|].
    intros y [<-|Hy].
    + exists a. split; [now left | exact E].
    + destruct (IH2 y Hy) as (x & Hx & Hfx). exists x. split; [now right | exact Hfx].
Qed.

Lemma map_throwing_None (A B : Type) (f : A -> option B) (l : list A) :
  map_throwing f l = None <-> exists x, In x l /\ f x = None.
Proof.
  induction l as [|a l IH]; simpl.
  - split; [discriminate | intros (x & [] & _)].
  - destruct (f a) as [b|] eqn:E.
    + destruct (map_throwing f l) as [bs|].
      * split; [discriminate|]. intros (x & [<-|Hx] & Hfx); [congruence|].
        assert (@None (list B) = None) as _ by reflexivity.
        destruct IH as [_ IH]. discriminate IH. now exists x.
      * split; [|reflexivity]. intros _. destruct IH as [IH _].
        destruct (IH eq_refl) as (x & Hx & Hfx). exists x. split; [now right | exact Hfx].
    + split; [|reflexivity]. intros _. exists a. split; [now left | exact E].
Qed.

Section RouteExtras.

Context {number Episode : Type} {C : Podcast number Episode}.

Lemma loader_Json (params : RouteParams) (seasons : list (Season number Episode))
      (data : LoaderData Episode) (headers : list (string * string)) :
  loader params seasons = Json data headers ->
  exists season before after,
    find (fun s => strict_equal (seasonNumber s) (Number (params_season params))) seasons
    = Some season
    /\ episodes season = before ++ episode data :: after
    /\ strict_equal (episodeNumber (episode data)) (Number (params_episode params)) = true
    /\ (forall e, In e before ->
                  strict_equal (episodeNumber e) (Number (params_episode params)) = false)
    /\ episode_slug (episode data) = params_slug params
    /\ prevEpisode data
       = find (fun e => strict_equal (episodeNumber e)
                                     (minus_one (Number (params_episode params))))
              (episodes season)
    /\ nextEpisode data
       = find (fun e => strict_equal (episodeNumber e)
                                     (plus_one (Number (params_episode params))))
              (episodes season)
    /\ featured data = getFeaturedEpisode (before ++ after)
    /\ headers = [("Cache-Control", "public, max-age=600"); ("Vary", "Cookie")].
Proof.
  unfold loader.
  destruct (find _ seasons) as [season|] eqn:Fs; [|discriminate].
  destruct (find_index _ 0 (episodes season)) as [[i ep]|] eqn:Fe; [|discriminate].
  destruct (String.eqb_spec (episode_slug ep) (params_slug params)) as [Hslug|];
    [|discriminate].
  simpl. intros H. injection H as <- <-.
  apply find_index_Some in Fe. destruct Fe as (before & after & Hl & -> & Hp & Hb).
  exists season, before, after. simpl.
  repeat (split; [assumption || reflexivity|]).
  split; [|reflexivity]. rewrite Hl. simpl. now rewrite without_index_middle.
Qed.

(** X14.  When the loader answers with data, the episode has the slug of
    the route, its number is [===] to [Number] of the episode parameter,
    and it is an episode of a season whose number is [===] to [Number] of
    the season parameter.  The previous and next episodes, when there are
    some, are episodes of that season with the number less one and plus
    one, and the featured episode is chosen among the other episodes of
    that season. *)
Theorem loader_data_is_the_requested_episode
        (params : RouteParams) (seasons : list (Season number Episode))
        (data : LoaderData Episode) (headers : list (string * string))
        (H : loader params seasons = Json data headers) :
  episode_slug (episode data) = params_slug params
  /\ strict_equal (episodeNumber (episode data)) (Number (params_episode params)) = true
  /\ exists season,
      In season seasons
      /\ strict_equal (seasonNumber season) (Number (params_season params)) = true
      /\ In (episode data) (episodes season)
      /\ (forall e, prevEpisode data = Some e ->
                    In e (episodes season)
                    /\ strict_equal (episodeNumber e)
                                    (minus_one (Number (params_episode params))) = true)
      /\ (forall e, nextEpisode data = Some e ->
                    In e (episodes season)
                    /\ strict_equal (episodeNumber e)
                                    (plus_one (Number (params_episode params))) = true)
      /\ exists others,
          featured data = getFeaturedEpisode others
          /\ Permutation (episode data :: others) (episodes season).
Proof.
  apply loader_Json in H.
  destruct H as (season & before & after & Fs & He & Hn & _ & Hslug & Hprev & Hnext
                 & Hfeat & _).
  split; [exact Hslug|]. split; [exact Hn|].
  exists season. apply find_some in Fs. destruct Fs as [Hin Hsn].
  split; [exact Hin|]. split; [exact Hsn|].
  split; [rewrite He; apply in_elt|].
  split; [intros e E; rewrite Hprev in E; now apply find_some in E|].
  split; [intros e E; rewrite Hnext in E; now apply find_some in E|].
  exists (before ++ after). split; [exact Hfeat|].
  rewrite He. apply Permutation_middle.
Qed.

(** X15.  When the loader redirects, the location is [/chats/], the
    season and episode parameters as they came, and the slug of the episode
    found, which differs from the slug of the route; and the loader called
    for that location answers with the data of an episode with that slug:
    there is no second redirect. *)
Theorem loader_redirect_reaches_the_episode
        (params : RouteParams) (seasons : list (Season number Episode))
        (location : string)
        (H : loader params seasons = Redirected location) :
  exists slug : string,
    location = ("/chats/" ++ params_season params ++ "/" ++ params_episode params
                ++ "/" ++ slug)%string
    /\ slug <> params_slug params
    /\ exists data headers,
        loader (mkRouteParams slug (params_season params) (params_episode params))
               seasons
        = Json data headers
        /\ episode_slug (episode data) = slug.
Proof.
  unfold loader in *.
  destruct (find _ seasons) as [season|] eqn:Fs; [|discriminate].
  destruct (find_index _ 0 (episodes season)) as [[i ep]|] eqn:Fe; [|discriminate].
  destruct (String.eqb_spec (episode_slug ep) (params_slug params)) as [|Hslug];
    [discriminate|].
  simpl in H. injection H as <-.
  exists (episode_slug ep). split; [reflexivity|]. split; [exact Hslug|].
  simpl. rewrite Fs, Fe, String.eqb_refl. simpl.
  eexists. eexists. split; reflexivity.
Qed.

(** X16.  The loader throws a response exactly in two cases, both with
    status 404: no season has a number [===] to the season parameter
    ([Season n not found]), or the first season that has one holds no
    episode with a number [===] to the episode parameter
    ([Episode n not found]); later seasons with the same number are not
    looked at. *)
Theorem loader_not_found
        (params : RouteParams) (seasons : list (Season number Episode))
        (body : string) (status : nat) :
  loader params seasons = ThrownResponse body status <->
  status = 404
  /\ ((body = ("Season " ++ String_ (Number (params_season params))
                ++ " not found")%string
       /\ forall s, In s seasons ->
                    strict_equal (seasonNumber s) (Number (params_season params)) = false)
      \/ (body = ("Episode " ++ String_ (Number (params_episode params))
                   ++ " not found")%string
          /\ exists before season after,
              seasons = before ++ season :: after
              /\ (forall s, In s before ->
                            strict_equal (seasonNumber s)
                                         (Number (params_season params)) = false)
              /\ strict_equal (seasonNumber season) (Number (params_season params)) = true
              /\ forall e, In e (episodes season) ->
                           strict_equal (episodeNumber e)
                                        (Number (params_episode params)) = false)).
Proof.
  unfold loader. split.
  - destruct (find _ seasons) as [season|] eqn:Fs.
    + destruct (find_index _ 0 (episodes season)) as [[i ep]|] eqn:Fe.
      * destruct (negb _); discriminate.
      * intros H. injection H as <- <-. split; [reflexivity|]. right.
        split; [reflexivity|].
        rewrite (find_index_find _ _ 0) in Fs.
        destruct (find_index _ 0 seasons) as [[j s]|] eqn:Fi; [|discriminate].
        injection Fs as ->.
        apply find_index_Some in Fi.
        destruct Fi as (before & after & -> & _ & Hs & Hb).
        exists before, season, after. repeat split; try assumption.
        now apply (find_index_None _ (episodes season) 0).
    + intros H. injection H as <- <-. split; [reflexivity|]. left.
      split; [reflexivity|]. now apply find_none.
  - intros [-> [[-> Hs]|[-> (before & season & after & -> & Hb & Hs & He)]]].
    + destruct (find _ seasons) as [season|] eqn:Fs; [|reflexivity].
      apply find_some in Fs. destruct Fs as [Hin Ht]. rewrite Hs in Ht by exact Hin.
      discriminate Ht.
    + rewrite find_first by assumption.
      now rewrite (proj2 (find_index_None _ (episodes season) 0) He).
Qed.

End RouteExtras.


Lemma pairwise_distinct_split (A B : Type) (eqb : B -> B -> bool) (f : A -> B)
      (before after : list A) (x : A) :
  pairwise_distinct eqb (map f (before ++ x :: after)) = true ->
  eqb (f x) (f x) = true /\ forall y, In y before -> eqb (f y) (f x) = false.
Proof.
  induction before as [|a before IH]; simpl.
  - intros H. apply andb_true_iff in H. destruct H as [H _].
    apply andb_true_iff in H. destruct H as [H _]. split; [exact H | contradiction].
  - intros H. apply andb_true_iff in H. destruct H as [H Hrest].
    apply andb_true_iff in H. destruct H as [_ Hall].
    destruct (IH Hrest) as [Hx Hb]. split; [exact Hx|].
    intros y [<-|Hy]; [|now apply Hb].
    rewrite forallb_forall in Hall.
    specialize (Hall (f x)). rewrite negb_true_iff in Hall. apply Hall.
    rewrite map_app. apply in_elt.
Qed.

Lemma length_concat_sum (A : Type) (ls : list (list A)) :
  List.length (List.concat ls) = list_sum (map (@List.length A) ls).
Proof.
  induction ls as [|l ls IH]; simpl; [reflexivity|].
  now rewrite length_app, IH.
Qed.

Section SitemapExtras.

Context {number Episode : Type} {C : Podcast number Episode}.

Lemma sitemap_entry_Some (season : Season number Episode) (ep : Episode) entry :
  sitemap_entry season ep = Some entry ->
  route entry = ("/chats/" ++ padStart 2 "0" (String_ (seasonNumber season)) ++ "/"
                 ++ padStart 2 "0" (String_ (episodeNumber ep)) ++ "/"
                 ++ episode_slug ep)%string
  /\ changefreq entry = "weekly"
  /\ updatedAt_toISOString ep = Some (lastmod entry)
  /\ priority entry = "0.4".
Proof.
  unfold sitemap_entry. destruct (updatedAt_toISOString ep); [|discriminate].
  intros H. injection H as <-. now repeat split.
Qed.

Lemma getSitemapEntries_In (seasons : list (Season number Episode)) entries entry :
  getSitemapEntries seasons = Some entries -> In entry entries ->
  exists season ep,
    In season seasons /\ In ep (episodes season)
    /\ sitemap_entry season ep = Some entry.
Proof.
  unfold getSitemapEntries.
  destruct (map_throwing _ seasons) as [yss|] eqn:E; [|discriminate].
  intros H Hin. injection H as <-.
  apply in_concat in Hin. destruct Hin as (ys & Hys & Hin).
  apply map_throwing_In in E. destruct E as [_ E].
  destruct (E ys Hys) as (season & Hseason & Hmap).
  apply map_throwing_In in Hmap. destruct Hmap as [_ Hmap].
  destruct (Hmap entry Hin) as (ep & Hep & Hentry).
  now exists season, ep.
Qed.

(** X17.  [getSitemapEntries] throws exactly when the date of some
    episode of some season is not valid; otherwise it gives one entry per
    episode of every season, each with [weekly] and [0.4]. *)
Theorem sitemap_has_one_entry_per_episode (seasons : list (Season number Episode)) :
  (getSitemapEntries seasons = None <->
   exists season ep, In season seasons /\ In ep (episodes season)
                     /\ updatedAt_toISOString ep = None)
  /\ forall entries, getSitemapEntries seasons = Some entries ->
       List.length entries
       = list_sum (map (fun season => List.length (episodes season)) seasons)
       /\ forall entry, In entry entries ->
            changefreq entry = "weekly" /\ priority entry = "0.4".
Proof.
  split.
  - unfold getSitemapEntries.
    destruct (map_throwing _ seasons) as [yss|] eqn:E.
    + split; [discriminate|]. intros (season & ep & Hs & He & Hd). exfalso.
      assert (N : map_throwing
                    (fun season => map_throwing (sitemap_entry season) (episodes season))
                    seasons = None).
      { apply map_throwing_None. exists season. split; [exact Hs|].
        apply map_throwing_None. exists ep. split; [exact He|].
        unfold sitemap_entry. now rewrite Hd. }
      congruence.
    + split; [|reflexivity]. intros _.
      apply map_throwing_None in E. destruct E as (season & Hs & E).
      apply map_throwing_None in E. destruct E as (ep & He & E).
      exists season, ep. repeat split; try assumption.
      unfold sitemap_entry in E. now destruct (updatedAt_toISOString ep).
  - intros entries H. split.
    + unfold getSitemapEntries in H.
      destruct (map_throwing _ seasons) as [yss|] eqn:E; [|discriminate].
      injection H as <-. rewrite length_concat_sum. f_equal.
      revert yss E. induction seasons as [|season seasons IH]; intros yss; simpl.
      * intros E. now injection E as <-.
      * destruct (map_throwing (sitemap_entry season) (episodes season)) as [ys|] eqn:E1;
          [|discriminate].
        destruct (map_throwing _ seasons) as [yss'|]; [|discriminate].
        intros E. injection E as <-. simpl. f_equal; [|now apply IH].
        now apply map_throwing_In in E1.
    + intros entry Hin.
      destruct (@getSitemapEntries_In seasons entries entry H Hin) as (season & ep & _ & _ & E).
      apply sitemap_entry_Some in E. tauto.
Qed.

(** X18.  When the numbers of the seasons, and of the episodes within a
    season, are told apart by [===] and come back from
    [Number(String(n).padStart(2, '0'))], every route of the sitemap is
    served by the loader with the data of the episode the entry was made
    for: no 404 and no redirect. *)
Theorem sitemap_routes_are_served (seasons : list (Season number Episode))
        (entries : list SitemapEntry)
        (H : getSitemapEntries seasons = Some entries)
        (Hs : forall season, In season seasons ->
                Number (padStart 2 "0" (String_ (seasonNumber season)))
                = seasonNumber season)
        (He : forall season ep, In season seasons -> In ep (episodes season) ->
                Number (padStart 2 "0" (String_ (episodeNumber ep)))
                = episodeNumber ep)
        (Hsn : pairwise_distinct strict_equal (map seasonNumber seasons) = true)
        (Hen : forall season, In season seasons ->
                 pairwise_distinct strict_equal (map episodeNumber (episodes season))
                 = true) :
  forall entry, In entry entries ->
    exists season ep data headers,
      In season seasons /\ In ep (episodes season)
      /\ route entry
         = ("/chats/" ++ padStart 2 "0" (String_ (seasonNumber season)) ++ "/"
            ++ padStart 2 "0" (String_ (episodeNumber ep)) ++ "/"
            ++ episode_slug ep)%string
      /\ loader (mkRouteParams (episode_slug ep)
                               (padStart 2 "0" (String_ (seasonNumber season)))
                               (padStart 2 "0" (String_ (episodeNumber ep))))
                seasons
         = Json data headers
      /\ episode data = ep.
Proof.
  intros entry Hin.
  destruct (@getSitemapEntries_In seasons entries entry H Hin) as (season & ep & Hseason & Hep & E).
  apply sitemap_entry_Some in E. destruct E as (Hroute & _).
  destruct (in_split _ _ Hseason) as (sb & sa & Hsplit).
  destruct (in_split _ _ Hep) as (eb & ea & Hesplit).
  assert (D1 := Hsn). rewrite Hsplit in D1.
  apply pairwise_distinct_split in D1. destruct D1 as [Hself Hbefore].
  assert (D2 := Hen season Hseason). rewrite Hesplit in D2.
  apply pairwise_distinct_split in D2. destruct D2 as [Heself Hebefore].
  assert (L : loader (mkRouteParams (episode_slug ep)
                                    (padStart 2 "0" (String_ (seasonNumber season)))
                                    (padStart 2 "0" (String_ (episodeNumber ep))))
                     seasons
              = Json (mkLoaderData
                        (find (fun e => strict_equal (episodeNumber e)
                                                     (minus_one (episodeNumber ep)))
                              (episodes season))
                        (find (fun e => strict_equal (episodeNumber e)
                                                     (plus_one (episodeNumber ep)))
                              (episodes season))
                        (getFeaturedEpisode (eb ++ ea))
                        ep)
                     [("Cache-Control", "public, max-age=600"); ("Vary", "Cookie")]).
  { unfold loader. simpl params_season. simpl params_episode. simpl params_slug.
    rewrite (Hs season Hseason), (He season ep Hseason Hep).
    rewrite Hsplit at 1. rewrite find_first by assumption.
    rewrite Hesplit at 1. rewrite find_index_first by assumption.
    rewrite String.eqb_refl. simpl negb. cbv iota.
    rewrite Hesplit at 3. simpl Nat.add. now rewrite without_index_middle. }
  exists season, ep. eexists. eexists.
  split; [exact Hseason|]. split; [exact Hep|]. split; [exact Hroute|].
  split; [exact L | reflexivity].
Qed.

End SitemapExtras.

(** ** The further properties on examples *)

Lemma trailing_slash_location_starts_with_one_slash_witness :
  JS.startsWith "/" "/a/b?x=1" = true
  /\ JS.startsWith "//" "/a/b?x=1" = false.
Proof.
  destruct (@trailing_slash_location_starts_with_one_slash
              (mkRequest "GET" "//a/b/?x=1" "//a/b/" [])
              "?x=1" 301 "/a/b?x=1"
              eq_refl eq_refl (or_intror eq_refl) eq_refl)
    as (_ & safepath & _ & _ & _ & H1 & H2).
  exact (conj H1 H2).
Defined.

Lemma trailing_slash_at_most_twice_witness :
  let second := mkRequest "GET" "/a/" "/a/" [] in
  let third := mkRequest "GET" "/a" "/a" [] in
  trailingSlashMiddleware second = Next
  \/ (trailingSlashMiddleware second = Redirect 301 "/a"
      /\ trailingSlashMiddleware third = Next).
Proof.
  exact (proj2 (@trailing_slash_at_most_twice
                  (mkRequest "GET" "/a//" "/a//" []) "" 301 "/a/"
                  eq_refl eq_refl)).
Defined.

Lemma comments_and_blank_lines_compile_to_nothing_witness :
  getRedirectsMiddleware (P := node) (two_lines "# redirects" "   ")
  = ([], Returned []).
Proof.
  refine (proj1 (@comments_and_blank_lines_compile_to_nothing _ _ _ node
                   (two_lines "# redirects" "   ") _)).
  intros raw Hin. vm_compute in Hin.
  destruct Hin as [<-|[<-|[]]]; [right | left]; vm_compute; reflexivity.
Defined.

Lemma skipped_line_changes_no_rule_witness :
  snd (compile_lines (P := node) 0 ["/a /b"; "GET,POST /only-from"; "/c /d"] [] [])
  = snd (compile_lines (P := node) 0 ["/a /b"; "/c /d"] [] []).
Proof.
  refine (@skipped_line_changes_no_rule _ _ _ node ["/a /b"] ["/c /d"]
            "GET,POST /only-from" 1 (or_intror (ex_intro _ _ _))).
  vm_compute. reflexivity.
Defined.

Lemma rules_and_diagnostics_in_line_order_witness :
  let lines := numbered_from 0 (JS.split JS.LF (two_lines "/a /b" "oops")) in
  compiled (two_lines "/a /b" "oops") = flat_map (line_rules (P := node)) lines
  /\ fst (getRedirectsMiddleware (P := node) (two_lines "/a /b" "oops"))
     = flat_map line_diagnostics lines
  /\ List.length (compiled (two_lines "/a /b" "oops"))
     + List.length (fst (getRedirectsMiddleware (P := node) (two_lines "/a /b" "oops")))
     <= List.length lines.
Proof.
  refine (@rules_and_diagnostics_in_line_order _ _ _ node
            (two_lines "/a /b" "oops")
            (fst (getRedirectsMiddleware (two_lines "/a /b" "oops")))
            (compiled (two_lines "/a /b" "oops")) _).
  vm_compute. reflexivity.
Defined.

Lemma line_without_destination_is_logged_witness :
  compile_line (P := node) 2 "GET,POST /only-from"
  = Logged (invalid_redirect 2 "GET,POST /only-from").
Proof.
  refine (@line_without_destination_is_logged _ _ _ node 2 "GET,POST /only-from"
            "GET,POST" ["/only-from"] _ _ (or_intror (conj eq_refl _))).
  - vm_compute. reflexivity.
  - vm_compute. reflexivity.
  - exists "GET". split; [right; left; reflexivity | vm_compute; left; reflexivity].
Defined.

Lemma matcher_with_host_never_throws_witness :
  let h := redirectsMiddleware (compiled "/old/:id /new/:id")
                               (GET "exa mple" "/old/42" "/old/42") in
  (response h = Next \/ exists location, response h = Redirect 307 location)
  /\ List.length (redirects_after h) = List.length (compiled "/old/:id /new/:id")
  /\ (new_URL (resolve_protocol "exa mple" ++ "://" ++ "exa mple" ++ "/old/42") = None ->
      h = mkHandled Next
                    [console_error ("Invalid URL: " ++ resolve_protocol "exa mple"
                                    ++ "://" ++ "exa mple" ++ "/old/42")]
                    (compiled "/old/:id /new/:id")).
Proof.
  exact (@matcher_with_host_never_throws _ _ _ node
           (compiled "/old/:id /new/:id")
           (GET "exa mple" "/old/42" "/old/42") "exa mple" eq_refl).
Defined.

Lemma rule_for_other_methods_is_skipped_witness :
  let redirect := mkRule ["POST"; "PUT"] [Node.Text "/old"] [] [Node.Text "/new"]
                         (Node.mkURL "https" "same_host" None "/new" None [] None) in
  let reqUrl := Node.mkURL "https" "example.com" None "/old" None [] None in
  let req := GET "example.com" "/old" "/old" in
  try_redirect (P := node) "https" reqUrl req redirect = Continue
  /\ redirects_loop "https" reqUrl req [redirect]
     = let h := redirects_loop "https" reqUrl req [] in
       mkHandled (response h) (console h) (redirect :: redirects_after h).
Proof.
  intros redirect reqUrl req.
  refine (@rule_for_other_methods_is_skipped _ _ _ node "https" reqUrl req
            redirect [] _ _).
  - intros [H|[H|[]]]; discriminate H.
  - intros [H|[H|[]]]; discriminate H.
Defined.

Lemma unmatched_request_changes_nothing_witness :
  redirectsMiddleware (compiled "/old /new") (GET "example.com" "/other" "/other")
  = mkHandled Next [] (compiled "/old /new").
Proof.
  refine (@unmatched_request_changes_nothing _ _ _ node
            (compiled "/old /new") (GET "example.com" "/other" "/other")
            "example.com"
            (Node.mkURL "https" "example.com" None "/other" None [] None) _ _ _).
  - vm_compute. reflexivity.
  - vm_compute. reflexivity.
  - intros r Hin. vm_compute in Hin. destruct Hin as [<-|[]].
    right. vm_compute. reflexivity.
Defined.

Lemma loader_data_is_the_requested_episode_witness :
  let data := mkLoaderData (Some (cast_episode 1 "one")) (Some (cast_episode 3 "three"))
                           (Some (cast_episode 1 "one")) (cast_episode 2 "two") in
  episode_slug (episode data) = "two"
  /\ strict_equal (episodeNumber (episode data)) (Number "02") = true.
Proof.
  intros data.
  destruct (@loader_data_is_the_requested_episode _ _ cast
              (mkRouteParams "two" "01" "02") cast_seasons data
              [("Cache-Control", "public, max-age=600"); ("Vary", "Cookie")])
    as (H1 & H2 & _).
  - vm_compute. reflexivity.
  - exact (conj H1 H2).
Defined.

Lemma loader_redirect_reaches_the_episode_witness :
  exists slug : string,
    "/chats/1/2/two" = ("/chats/" ++ "1" ++ "/" ++ "2" ++ "/" ++ slug)%string
    /\ slug <> "wrong"
    /\ exists data headers,
        loader (C := cast) (mkRouteParams slug "1" "2") cast_seasons = Json data headers
        /\ episode_slug (episode data) = slug.
Proof.
  refine (@loader_redirect_reaches_the_episode _ _ cast
            (mkRouteParams "wrong" "1" "2") cast_seasons "/chats/1/2/two" _).
  vm_compute. reflexivity.
Defined.

Lemma sitemap_routes_are_served_witness :
  exists season ep data headers,
    In season cast_seasons /\ In ep (episodes season)
    /\ "/chats/01/02/two"
       = ("/chats/" ++ padStart 2 "0" (String_ (seasonNumber season)) ++ "/"
          ++ padStart 2 "0" (String_ (episodeNumber ep)) ++ "/"
          ++ episode_slug ep)%string
    /\ loader (C := cast)
              (mkRouteParams (episode_slug ep)
                             (padStart 2 "0" (String_ (seasonNumber season)))
                             (padStart 2 "0" (String_ (episodeNumber ep))))
              cast_seasons
       = Json data headers
    /\ episode data = ep.
Proof.
  refine (@sitemap_routes_are_served _ _ cast cast_seasons
            [mkSitemapEntry "/chats/01/01/one" "weekly" "2021-06-01T00:00:00.000Z" "0.4";
             mkSitemapEntry "/chats/01/02/two" "weekly" "2021-06-01T00:00:00.000Z" "0.4";
             mkSitemapEntry "/chats/01/03/three" "weekly" "2021-06-01T00:00:00.000Z" "0.4"]
            _ _ _ _ _
            (mkSitemapEntry "/chats/01/02/two" "weekly" "2021-06-01T00:00:00.000Z" "0.4")
            _).
  - vm_compute. reflexivity.
  - intros season [<-|[]]. vm_compute. reflexivity.
  - intros season ep [<-|[]] [<-|[<-|[<-|[]]]]; vm_compute; reflexivity.
  - vm_compute. reflexivity.
  - intros season [<-|[]]. vm_compute. reflexivity.
  - right. left. reflexivity.
Defined.
